(** * flowero: connection state machine and message ingestion pipeline

    A shallow embedding of [src/message_queue.py], [src/mqtt_client.py] and
    the topic validator of [app.py], with the properties of the
    specification stated and settled against it.

    Conventions of the embedding.
    - The floats of [message_queue.py] (the [time.time()] stamps and the
      rate) are binary64 floats, the primitive floats of Rocq, with their
      own subtraction, division and comparison. The delays of the
      reconnect timer in [mqtt_client.py] are rationals [Q]; the one place
      there where float arithmetic itself decides the behaviour (the
      conversion of [2 ** n] to a float) is written out.
    - A [dict] is an association list in insertion order with unique keys.
    - The calls into paho-mqtt are not part of the repository: what such a
      call returns or raises is an argument ([lib_result]) of the method
      that makes the call.
    - [time.time()] read inside a method is an argument [now] of the method.
    - An observer of the message queue is [None] or a callable, given by
      what a call to it does: it returns, or it raises. The calls made to
      it are logged, oldest first. An observer of the client wrapper is a
      flag (is a callable registered) together with the list of the calls
      made to it; a registered one is taken to return normally.
    - The methods run one at a time: a thread is a flag telling whether it is
      alive, and [join] waits for the worker to leave its loop. What the
      other threads do to the incoming queue in the course of one
      [add_message] call is an argument of the call. *)

From Stdlib Require Import Uint63 Floats String Ascii ZArith QArith Lia Lqa Bool Arith DecimalString List.
Import ListNotations.

Local Open Scope string_scope.
Local Open Scope Z_scope.
Local Open Scope list_scope.

(** ** Python containers *)

Module Py.

Section Sequences.
Context {A : Type}.

(** [collections.deque(maxlen=n).append(x)]: the item is appended on the
    right, and the leftmost item is discarded when the length then
    exceeds [maxlen]. *)
Definition deque_append (maxlen : nat) (x : A) (d : list A) : list A :=
  let d' := d ++ [x] in
  if (maxlen <? length d')%nat then tl d' else d'.

(** [lst[start:]] for an integer [start] (negative counts from the end,
    out-of-range values are clamped). *)
Definition slice_from (start : Z) (l : list A) : list A :=
  let n := Z.of_nat (length l) in
  let s := if start <? 0 then Z.max (start + n) 0 else Z.min start n in
  skipn (Z.to_nat s) l.

(** The last [n] items of a list. *)
Definition lastn (n : nat) (l : list A) : list A :=
  skipn (length l - n) l.

(** [while d and p(d[0]): d.popleft()] *)
Fixpoint popleft_while (p : A -> bool) (d : list A) : list A :=
  match d with
  | [] => []
  | x :: r => if p x then popleft_while p r else d
  end.
End Sequences.

(** [x in lst] for a list of strings. *)
Definition str_in (x : string) (l : list string) : bool :=
  existsb (String.eqb x) l.

(** [lst.remove(x)]: drops the first occurrence; [None] stands for the
    [ValueError] raised when there is none. *)
Fixpoint list_remove (x : string) (l : list string) : option (list string) :=
  match l with
  | [] => None
  | y :: r =>
      if String.eqb x y then Some r
      else option_map (cons y) (list_remove x r)
  end.

Section Dict.
Context {V : Type}.

Definition dict := list (string * V).

Definition keys (d : dict) : list string := map fst d.

(** [k in d] *)
Definition dict_mem (k : string) (d : dict) : bool := str_in k (keys d).

(** [d.get(k)] *)
Fixpoint dict_get (k : string) (d : dict) : option V :=
  match d with
  | [] => None
  | (k', v) :: r => if String.eqb k k' then Some v else dict_get k r
  end.

(** [d[k] = v]: an existing key keeps its place, a new key goes last. *)
Fixpoint dict_set (k : string) (v : V) (d : dict) : dict :=
  match d with
  | [] => [(k, v)]
  | (k', v') :: r =>
      if String.eqb k k' then (k, v) :: r else (k', v') :: dict_set k v r
  end.

(** [d.pop(k, None)] as a statement: the entry goes if it is there. *)
Fixpoint dict_pop (k : string) (d : dict) : dict :=
  match d with
  | [] => []
  | (k', v') :: r =>
      if String.eqb k k' then r else (k', v') :: dict_pop k r
  end.
End Dict.
Arguments dict : clear implicits.


(** [x < y] on the rationals that stand for the delays of the client. *)
Definition Qlt_bool (x y : Q) : bool := negb (Qle_bool y x).

(** [float(n)] for a length or a small integer constant. *)
Definition float_of_nat (n : nat) : float :=
  PrimFloat.of_uint63 (Uint63.of_Z (Z.of_nat n)).

End Py.

(** ** message_queue.py *)

Module MessageQueue.
Import Py.

Record MQTTMessage := mkMessage {
  topic : string;
  payload : string;
  timestamp : float;
  qos : Z;
  retain : bool;
  mid : option Z
}.

(** The metadata dict handed to [add_message]; an absent key is [None]. *)
Record MsgInfo := mkInfo {
  info_timestamp : option float;
  info_qos : option Z;
  info_retain : option bool;
  info_mid : option Z
}.

(** *** Observers and what a call comes to *)

(** An exception raised by an observer: whether it is an instance of
    [Exception], which is what [except Exception] catches and what
    [KeyboardInterrupt] or [SystemExit] are not, and its [str()]. *)
Record exception := mkException {
  is_Exception : bool;
  text : string
}.

Inductive hook_result :=
| Returns
| Raises (e : exception).

(** An observer attribute: [None], or a callable, given by what a call
    to it does. *)
Definition hook (A : Type) : Type := option (A -> hook_result).

(** What a method call comes to: a value returned, or an exception that
    leaves the method. *)
Inductive outcome (A : Type) :=
| Value (a : A)
| Uncaught (e : exception).
Arguments Value {A} a.
Arguments Uncaught {A} e.

(** *** [queue.Queue(maxsize)] *)

Record Queue := mkQueue {
  maxsize : Z;
  items : list MQTTMessage
}.

Definition qsize (q : Queue) : nat := length (items q).

(** A queue is full when [0 < maxsize <= qsize]; [maxsize <= 0] is an
    unbounded queue. *)
Definition full (q : Queue) : bool :=
  (0 <? maxsize q) && (maxsize q <=? Z.of_nat (qsize q)).

(** [put_nowait]: [None] stands for [queue.Full]. *)
Definition put_nowait (q : Queue) (m : MQTTMessage) : option Queue :=
  if full q then None else Some (mkQueue (maxsize q) (items q ++ [m])).

(** [get_nowait]: [None] stands for [queue.Empty]. *)
Definition get_nowait (q : Queue) : option (MQTTMessage * Queue) :=
  match items q with
  | [] => None
  | m :: r => Some (m, mkQueue (maxsize q) r)
  end.

(** What the other threads (the worker taking items, other producers
    putting items) do to the items of the incoming queue between two
    queue operations of one [add_message] call: after the refused push
    and before the size is read, from there to the eviction, and between
    the eviction and the second push. *)
Record interference := mkInterference {
  before_qsize : list MQTTMessage -> list MQTTMessage;
  before_get : list MQTTMessage -> list MQTTMessage;
  before_retry : list MQTTMessage -> list MQTTMessage
}.

(** No other thread touches the queue during the call. *)
Definition undisturbed : interference :=
  mkInterference (fun l => l) (fun l => l) (fun l => l).

Definition disturb (f : list MQTTMessage -> list MQTTMessage) (q : Queue) : Queue :=
  mkQueue (maxsize q) (f (items q)).

(** *** [MessageQueueManager] *)

Record MessageQueueManager := mkManager {
  max_queue_size : Z;
  max_history : nat;
  incoming_queue : Queue;
  message_history : list MQTTMessage;     (* deque(maxlen=max_history) *)
  topic_stats : dict Z;
  processing_thread : bool;               (* the worker thread is alive *)
  shutdown_event : bool;
  total_messages : Z;
  messages_per_second : float;
  last_message_time : option float;
  rate_calculation_window : nat;
  rate_history : list float;              (* deque(maxlen=rate_calculation_window) *)
  on_message_processed : hook MQTTMessage;
  on_queue_full : hook nat;
  on_error : hook string;
  message_processed_calls : list MQTTMessage;
  queue_full_calls : list nat;
  error_calls : list string
}.

Definition default_max_queue_size : Z := 10000.
Definition default_max_history : nat := 1000.

(** [__init__]. A negative [max_history] makes [deque] raise at
    construction, so the capacity is a natural number. *)
Definition __init__ (max_queue_size : Z) (max_history : nat) : MessageQueueManager :=
  {| max_queue_size := max_queue_size;
     max_history := max_history;
     incoming_queue := mkQueue max_queue_size [];
     message_history := [];
     topic_stats := [];
     processing_thread := false;
     shutdown_event := false;
     total_messages := 0;
     messages_per_second := 0%float;
     last_message_time := None;
     rate_calculation_window := 60;
     rate_history := [];
     on_message_processed := None;
     on_queue_full := None;
     on_error := None;
     message_processed_calls := [];
     queue_full_calls := [];
     error_calls := [] |}.

Definition set_incoming_queue (q : Queue) (s : MessageQueueManager) :=
  mkManager (max_queue_size s) (max_history s) q (message_history s)
    (topic_stats s) (processing_thread s) (shutdown_event s) (total_messages s)
    (messages_per_second s) (last_message_time s) (rate_calculation_window s)
    (rate_history s) (on_message_processed s) (on_queue_full s) (on_error s)
    (message_processed_calls s) (queue_full_calls s) (error_calls s).

Definition set_message_history (h : list MQTTMessage) (s : MessageQueueManager) :=
  mkManager (max_queue_size s) (max_history s) (incoming_queue s) h
    (topic_stats s) (processing_thread s) (shutdown_event s) (total_messages s)
    (messages_per_second s) (last_message_time s) (rate_calculation_window s)
    (rate_history s) (on_message_processed s) (on_queue_full s) (on_error s)
    (message_processed_calls s) (queue_full_calls s) (error_calls s).

Definition set_thread (alive shutdown : bool) (s : MessageQueueManager) :=
  mkManager (max_queue_size s) (max_history s) (incoming_queue s) (message_history s)
    (topic_stats s) alive shutdown (total_messages s)
    (messages_per_second s) (last_message_time s) (rate_calculation_window s)
    (rate_history s) (on_message_processed s) (on_queue_full s) (on_error s)
    (message_processed_calls s) (queue_full_calls s) (error_calls s).

(** The five statistics fields at once. *)
Definition set_statistics (total : Z) (last : option float) (stats : dict Z)
    (rate : float) (window : list float) (s : MessageQueueManager) :=
  mkManager (max_queue_size s) (max_history s) (incoming_queue s) (message_history s)
    stats (processing_thread s) (shutdown_event s) total
    rate last (rate_calculation_window s)
    window (on_message_processed s) (on_queue_full s) (on_error s)
    (message_processed_calls s) (queue_full_calls s) (error_calls s).

Definition set_calls (processed : list MQTTMessage) (overflow : list nat)
    (errors : list string) (s : MessageQueueManager) :=
  mkManager (max_queue_size s) (max_history s) (incoming_queue s) (message_history s)
    (topic_stats s) (processing_thread s) (shutdown_event s) (total_messages s)
    (messages_per_second s) (last_message_time s) (rate_calculation_window s)
    (rate_history s) (on_message_processed s) (on_queue_full s) (on_error s)
    processed overflow errors.

(** Assigning the three observer attributes. *)
Definition set_observers (processed : hook MQTTMessage) (overflow : hook nat)
    (errors : hook string) (s : MessageQueueManager) :=
  mkManager (max_queue_size s) (max_history s) (incoming_queue s) (message_history s)
    (topic_stats s) (processing_thread s) (shutdown_event s) (total_messages s)
    (messages_per_second s) (last_message_time s) (rate_calculation_window s)
    (rate_history s) processed overflow errors
    (message_processed_calls s) (queue_full_calls s) (error_calls s).

(** [start_processing]: does nothing when the worker is alive. *)
Definition start_processing (s : MessageQueueManager) : MessageQueueManager :=
  if processing_thread s then s else set_thread true false s.

(** [stop_processing]: does nothing when there is no live worker; otherwise
    sets the shutdown event and joins the worker. *)
Definition stop_processing (s : MessageQueueManager) : MessageQueueManager :=
  if negb (processing_thread s) then s else set_thread false true s.

(** [if self.on_error: self.on_error(error_msg)], the last statement of
    the three [except Exception] handlers: what the observer raises
    leaves the method. *)
Definition call_on_error (error_msg : string) (s : MessageQueueManager)
    : outcome unit * MessageQueueManager :=
  match on_error s with
  | None => (Value tt, s)
  | Some observer =>
      let s' :=
        set_calls (message_processed_calls s) (queue_full_calls s)
          (error_calls s ++ [error_msg]) s in
      match observer error_msg with
      | Returns => (Value tt, s')
      | Raises e => (Uncaught e, s')
      end
  end.

(** The [MQTTMessage] built at the head of [add_message]. *)
Definition make_message (now : float) (topic payload : string) (msg_info : MsgInfo)
    : MQTTMessage :=
  {| topic := topic;
     payload := payload;
     timestamp := match info_timestamp msg_info with Some t => t | None => now end;
     qos := match info_qos msg_info with Some q => q | None => 0 end;
     retain := match info_retain msg_info with Some r => r | None => false end;
     mid := info_mid msg_info |}.

(** [add_message], with what the other threads do to the queue
    meanwhile. The inner handlers are bare [except:] clauses around the
    two pushes and the eviction; the call of the overflow observer stands
    in the first of them, outside any inner [try], so what it raises goes
    to the outer [except Exception]. *)
Definition add_message (others : interference) (now : float)
    (topic payload : string) (msg_info : MsgInfo) (s : MessageQueueManager)
    : outcome bool * MessageQueueManager :=
  let message := make_message now topic payload msg_info in
  match put_nowait (incoming_queue s) message with
  | Some q => (Value true, set_incoming_queue q s)
  | None =>
      (* Queue is full *)
      let q0 := disturb (before_qsize others) (incoming_queue s) in
      let s0 := set_incoming_queue q0 s in
      let (called, s1) :=
        match on_queue_full s0 with
        | None => (Returns, s0)
        | Some observer =>
            (observer (qsize q0),
             set_calls (message_processed_calls s0)
               (queue_full_calls s0 ++ [qsize q0]) (error_calls s0) s0)
        end in
      match called with
      | Returns =>
          (* Try to make space by removing old messages *)
          let q1 := disturb (before_get others) q0 in
          match get_nowait q1 with
          | Some (_, q2) =>
              let q3 := disturb (before_retry others) q2 in
              match put_nowait q3 message with
              | Some q4 => (Value true, set_incoming_queue q4 s1)
              | None => (Value false, set_incoming_queue q3 s1)
              end
          | None => (Value false, set_incoming_queue q1 s1)
          end
      | Raises e =>
          if is_Exception e
          then
            let error_msg := ("Error adding message to queue: " ++ text e)%string in
            match call_on_error error_msg s1 with
            | (Value _, s2) => (Value false, s2)
            | (Uncaught e', s2) => (Uncaught e', s2)
            end
          else (Uncaught e, s1)
      end
  end.

(** [_update_message_rate], with [now] the clock read at its first line.
    The window length 60 and the sample count are integers, converted to
    floats by the subtraction and the division. *)
Definition _update_message_rate (now : float) (s : MessageQueueManager)
    : MessageQueueManager :=
  let cutoff_time := (now - float_of_nat (rate_calculation_window s))%float in
  let window := popleft_while (fun t => PrimFloat.ltb t cutoff_time) (rate_history s) in
  let rate :=
    match window with
    | oldest :: _ :: _ =>
        let time_span := (now - oldest)%float in
        if PrimFloat.ltb 0 time_span
        then (float_of_nat (length window) / time_span)%float
        else 0%float
    | _ => 0%float
    end in
  set_statistics (total_messages s) (last_message_time s) (topic_stats s)
    rate window s.

(** The block of [_handle_message] that runs under [queue_lock], with
    [now] the clock read by the rate update. *)
Definition record_message (now : float) (message : MQTTMessage)
    (s : MessageQueueManager) : MessageQueueManager :=
  let stats0 :=
    if dict_mem (topic message) (topic_stats s) then topic_stats s
    else dict_set (topic message) 0 (topic_stats s) in
  let stats1 :=
    match dict_get (topic message) stats0 with
    | Some n => dict_set (topic message) (n + 1) stats0
    | None => stats0
    end in
  let s1 :=
    set_statistics (total_messages s + 1) (Some (timestamp message)) stats1
      (messages_per_second s)
      (deque_append (rate_calculation_window s) (timestamp message) (rate_history s))
      s in
  let s2 := _update_message_rate now s1 in
  set_message_history
    (deque_append (max_history s2) message (message_history s2)) s2.

(** [_handle_message]: the locked block, then the user callback; an
    [Exception] of the callback is reported to the error observer. *)
Definition _handle_message (now : float) (message : MQTTMessage)
    (s : MessageQueueManager) : outcome unit * MessageQueueManager :=
  let s3 := record_message now message s in
  match on_message_processed s3 with
  | None => (Value tt, s3)
  | Some observer =>
      let s4 :=
        set_calls (message_processed_calls s3 ++ [message]) (queue_full_calls s3)
          (error_calls s3) s3 in
      match observer message with
      | Returns => (Value tt, s4)
      | Raises e =>
          if is_Exception e
          then call_on_error ("Error handling message: " ++ text e)%string s4
          else (Uncaught e, s4)
      end
  end.

(** [get_recent_messages(count)]; [None] is Python's [None]. *)
Definition get_recent_messages (count : option Z) (s : MessageQueueManager)
    : list MQTTMessage :=
  match count with
  | None => message_history s
  | Some c => slice_from (- c) (message_history s)
  end.

Definition clear_history (s : MessageQueueManager) : MessageQueueManager :=
  set_message_history [] s.

Definition clear_statistics (s : MessageQueueManager) : MessageQueueManager :=
  set_statistics 0 None [] 0%float [] s.


(** One pass of the worker loop in [_process_messages] that finds an
    item. An [Exception] out of [_handle_message] is reported to the
    error observer and the loop goes on; what leaves the loop ends the
    thread. *)
Definition process_one (now : float) (s : MessageQueueManager) : MessageQueueManager :=
  match get_nowait (incoming_queue s) with
  | Some (m, q) =>
      match _handle_message now m (set_incoming_queue q s) with
      | (Value _, s1) => s1
      | (Uncaught e, s1) =>
          if is_Exception e
          then
            match call_on_error ("Error in message processing loop: " ++ text e)%string s1 with
            | (Value _, s2) => s2
            | (Uncaught _, s2) => set_thread false (shutdown_event s2) s2
            end
          else set_thread false (shutdown_event s1) s1
      end
  | None => s
  end.

(** The operations that touch the manager, as the events of a run; each
    runs to its end before the next starts. *)
Inductive op :=
| OpAdd (now : float) (topic payload : string) (msg_info : MsgInfo)
| OpProcess (now : float)
| OpHandle (now : float) (message : MQTTMessage)
| OpClearHistory
| OpClearStatistics
| OpStart
| OpStop
| OpObservers (processed : hook MQTTMessage) (overflow : hook nat)
    (errors : hook string).

Definition apply_op (s : MessageQueueManager) (o : op) : MessageQueueManager :=
  match o with
  | OpAdd now t p i => snd (add_message undisturbed now t p i s)
  | OpProcess now => process_one now s
  | OpHandle now m => snd (_handle_message now m s)
  | OpClearHistory => clear_history s
  | OpClearStatistics => clear_statistics s
  | OpStart => start_processing s
  | OpStop => stop_processing s
  | OpObservers processed overflow errors =>
      set_observers processed overflow errors s
  end.

Definition run (ops : list op) (s : MessageQueueManager) : MessageQueueManager :=
  fold_left apply_op ops s.

(** Handling a feed of messages, each with the clock at its handling. *)
Definition handle_all (feed : list (float * MQTTMessage)) (s : MessageQueueManager)
    : MessageQueueManager :=
  fold_left (fun s nm => snd (_handle_message (fst nm) (snd nm) s)) feed s.

End MessageQueue.

(** ** mqtt_client.py *)

Module MqttClient.
Import Py.

Inductive ConnectionStatus :=
| DISCONNECTED
| CONNECTING
| CONNECTED
| CONNECTION_FAILED
| CONNECTION_LOST.

Definition status_eqb (a b : ConnectionStatus) : bool :=
  match a, b with
  | DISCONNECTED, DISCONNECTED
  | CONNECTING, CONNECTING
  | CONNECTED, CONNECTED
  | CONNECTION_FAILED, CONNECTION_FAILED
  | CONNECTION_LOST, CONNECTION_LOST => true
  | _, _ => false
  end.

(** What Python can raise in these methods. *)
Inductive exn :=
| OverflowError (msg : string)
| ValueError (msg : string)
| LibraryError (msg : string).

(** [str(e)] *)
Definition exn_str (e : exn) : string :=
  match e with
  | OverflowError m | ValueError m | LibraryError m => m
  end.

(** The outcome of a call into the paho client: a return code, or an
    exception (a socket error, for one). *)
Inductive lib_result :=
| Returned (rc : Z)
| Raised (msg : string).

Definition MQTT_ERR_SUCCESS : Z := 0.

Record MQTTClientWrapper := mkClient {
  status : ConnectionStatus;
  host : option string;
  port : option Z;
  username : option string;
  password : option string;
  on_status_change : bool;
  on_error : bool;
  on_connected : bool;
  connection_attempts : Z;
  last_error : option string;
  auto_reconnect : bool;
  reconnect_delay_base : Q;
  reconnect_delay_max : Q;
  reconnect_timer : option Q;   (* the pending threading.Timer, by its delay *)
  reconnect_attempts : nat;
  subscribed_topics : dict Z;   (* topic -> qos *)
  pending_subscriptions : list string;
  message_queue : MessageQueue.MessageQueueManager;
  loop_running : bool;   (* paho's network loop thread *)
  status_change_calls : list ConnectionStatus;
  error_calls : list string;
  connected_calls : nat;
  timers_started : list Q   (* the delay of every Timer started, oldest first *)
}.

Definition with_status (v : ConnectionStatus) (c : MQTTClientWrapper) : MQTTClientWrapper :=
  mkClient v (host c) (port c) (username c) (password c) (on_status_change c)
    (on_error c) (on_connected c) (connection_attempts c) (last_error c)
    (auto_reconnect c) (reconnect_delay_base c) (reconnect_delay_max c)
    (reconnect_timer c) (reconnect_attempts c) (subscribed_topics c)
    (pending_subscriptions c) (message_queue c) (loop_running c)
    (status_change_calls c) (error_calls c) (connected_calls c) (timers_started c).

Definition with_last_error (v : option string) (c : MQTTClientWrapper) : MQTTClientWrapper :=
  mkClient (status c) (host c) (port c) (username c) (password c) (on_status_change c)
    (on_error c) (on_connected c) (connection_attempts c) v (auto_reconnect c)
    (reconnect_delay_base c) (reconnect_delay_max c) (reconnect_timer c)
    (reconnect_attempts c) (subscribed_topics c) (pending_subscriptions c)
    (message_queue c) (loop_running c) (status_change_calls c) (error_calls c)
    (connected_calls c) (timers_started c).

Definition with_connection_attempts (v : Z) (c : MQTTClientWrapper) : MQTTClientWrapper :=
  mkClient (status c) (host c) (port c) (username c) (password c) (on_status_change c)
    (on_error c) (on_connected c) v (last_error c) (auto_reconnect c)
    (reconnect_delay_base c) (reconnect_delay_max c) (reconnect_timer c)
    (reconnect_attempts c) (subscribed_topics c) (pending_subscriptions c)
    (message_queue c) (loop_running c) (status_change_calls c) (error_calls c)
    (connected_calls c) (timers_started c).

Definition with_auto_reconnect (v : bool) (c : MQTTClientWrapper) : MQTTClientWrapper :=
  mkClient (status c) (host c) (port c) (username c) (password c) (on_status_change c)
    (on_error c) (on_connected c) (connection_attempts c) (last_error c) v
    (reconnect_delay_base c) (reconnect_delay_max c) (reconnect_timer c)
    (reconnect_attempts c) (subscribed_topics c) (pending_subscriptions c)
    (message_queue c) (loop_running c) (status_change_calls c) (error_calls c)
    (connected_calls c) (timers_started c).

Definition with_reconnect_timer (v : option Q) (c : MQTTClientWrapper) : MQTTClientWrapper :=
  mkClient (status c) (host c) (port c) (username c) (password c) (on_status_change c)
    (on_error c) (on_connected c) (connection_attempts c) (last_error c)
    (auto_reconnect c) (reconnect_delay_base c) (reconnect_delay_max c) v
    (reconnect_attempts c) (subscribed_topics c) (pending_subscriptions c)
    (message_queue c) (loop_running c) (status_change_calls c) (error_calls c)
    (connected_calls c) (timers_started c).

Definition with_reconnect_attempts (v : nat) (c : MQTTClientWrapper) : MQTTClientWrapper :=
  mkClient (status c) (host c) (port c) (username c) (password c) (on_status_change c)
    (on_error c) (on_connected c) (connection_attempts c) (last_error c)
    (auto_reconnect c) (reconnect_delay_base c) (reconnect_delay_max c)
    (reconnect_timer c) v (subscribed_topics c) (pending_subscriptions c)
    (message_queue c) (loop_running c) (status_change_calls c) (error_calls c)
    (connected_calls c) (timers_started c).

Definition with_subscribed_topics (v : dict Z) (c : MQTTClientWrapper) : MQTTClientWrapper :=
  mkClient (status c) (host c) (port c) (username c) (password c) (on_status_change c)
    (on_error c) (on_connected c) (connection_attempts c) (last_error c)
    (auto_reconnect c) (reconnect_delay_base c) (reconnect_delay_max c)
    (reconnect_timer c) (reconnect_attempts c) v (pending_subscriptions c)
    (message_queue c) (loop_running c) (status_change_calls c) (error_calls c)
    (connected_calls c) (timers_started c).

Definition with_pending_subscriptions (v : list string) (c : MQTTClientWrapper) : MQTTClientWrapper :=
  mkClient (status c) (host c) (port c) (username c) (password c) (on_status_change c)
    (on_error c) (on_connected c) (connection_attempts c) (last_error c)
    (auto_reconnect c) (reconnect_delay_base c) (reconnect_delay_max c)
    (reconnect_timer c) (reconnect_attempts c) (subscribed_topics c) v
    (message_queue c) (loop_running c) (status_change_calls c) (error_calls c)
    (connected_calls c) (timers_started c).

Definition with_message_queue (v : MessageQueue.MessageQueueManager) (c : MQTTClientWrapper) : MQTTClientWrapper :=
  mkClient (status c) (host c) (port c) (username c) (password c) (on_status_change c)
    (on_error c) (on_connected c) (connection_attempts c) (last_error c)
    (auto_reconnect c) (reconnect_delay_base c) (reconnect_delay_max c)
    (reconnect_timer c) (reconnect_attempts c) (subscribed_topics c)
    (pending_subscriptions c) v (loop_running c) (status_change_calls c)
    (error_calls c) (connected_calls c) (timers_started c).

Definition with_loop_running (v : bool) (c : MQTTClientWrapper) : MQTTClientWrapper :=
  mkClient (status c) (host c) (port c) (username c) (password c) (on_status_change c)
    (on_error c) (on_connected c) (connection_attempts c) (last_error c)
    (auto_reconnect c) (reconnect_delay_base c) (reconnect_delay_max c)
    (reconnect_timer c) (reconnect_attempts c) (subscribed_topics c)
    (pending_subscriptions c) (message_queue c) v (status_change_calls c)
    (error_calls c) (connected_calls c) (timers_started c).

Definition with_status_change_calls (v : list ConnectionStatus) (c : MQTTClientWrapper) : MQTTClientWrapper :=
  mkClient (status c) (host c) (port c) (username c) (password c) (on_status_change c)
    (on_error c) (on_connected c) (connection_attempts c) (last_error c)
    (auto_reconnect c) (reconnect_delay_base c) (reconnect_delay_max c)
    (reconnect_timer c) (reconnect_attempts c) (subscribed_topics c)
    (pending_subscriptions c) (message_queue c) (loop_running c) v (error_calls c)
    (connected_calls c) (timers_started c).

Definition with_error_calls (v : list string) (c : MQTTClientWrapper) : MQTTClientWrapper :=
  mkClient (status c) (host c) (port c) (username c) (password c) (on_status_change c)
    (on_error c) (on_connected c) (connection_attempts c) (last_error c)
    (auto_reconnect c) (reconnect_delay_base c) (reconnect_delay_max c)
    (reconnect_timer c) (reconnect_attempts c) (subscribed_topics c)
    (pending_subscriptions c) (message_queue c) (loop_running c)
    (status_change_calls c) v (connected_calls c) (timers_started c).

Definition with_connected_calls (v : nat) (c : MQTTClientWrapper) : MQTTClientWrapper :=
  mkClient (status c) (host c) (port c) (username c) (password c) (on_status_change c)
    (on_error c) (on_connected c) (connection_attempts c) (last_error c)
    (auto_reconnect c) (reconnect_delay_base c) (reconnect_delay_max c)
    (reconnect_timer c) (reconnect_attempts c) (subscribed_topics c)
    (pending_subscriptions c) (message_queue c) (loop_running c)
    (status_change_calls c) (error_calls c) v (timers_started c).

Definition with_timers_started (v : list Q) (c : MQTTClientWrapper) : MQTTClientWrapper :=
  mkClient (status c) (host c) (port c) (username c) (password c) (on_status_change c)
    (on_error c) (on_connected c) (connection_attempts c) (last_error c)
    (auto_reconnect c) (reconnect_delay_base c) (reconnect_delay_max c)
    (reconnect_timer c) (reconnect_attempts c) (subscribed_topics c)
    (pending_subscriptions c) (message_queue c) (loop_running c)
    (status_change_calls c) (error_calls c) (connected_calls c) v.

(** The four assignments at the head of [connect]. *)
Definition with_target (h : option string) (p : option Z) (u pw : option string)
    (c : MQTTClientWrapper) : MQTTClientWrapper :=
  mkClient (status c) h p u pw (on_status_change c) (on_error c) (on_connected c)
    (connection_attempts c) (last_error c) (auto_reconnect c) (reconnect_delay_base c)
    (reconnect_delay_max c) (reconnect_timer c) (reconnect_attempts c)
    (subscribed_topics c) (pending_subscriptions c) (message_queue c) (loop_running c)
    (status_change_calls c) (error_calls c) (connected_calls c) (timers_started c).

(** Assigning the three observer attributes. *)
Definition with_observers (st err conn : bool) (c : MQTTClientWrapper)
    : MQTTClientWrapper :=
  mkClient (status c) (host c) (port c) (username c) (password c) st err conn
    (connection_attempts c) (last_error c) (auto_reconnect c) (reconnect_delay_base c)
    (reconnect_delay_max c) (reconnect_timer c) (reconnect_attempts c)
    (subscribed_topics c) (pending_subscriptions c) (message_queue c) (loop_running c)
    (status_change_calls c) (error_calls c) (connected_calls c) (timers_started c).

(** [__init__]: the wrapper owns a [MessageQueueManager()] with its default
    sizes. The logger, the locks and the client id carry no behaviour here
    and are left out. *)
Definition __init__ : MQTTClientWrapper :=
  {| status := DISCONNECTED;
     host := None; port := None; username := None; password := None;
     on_status_change := false; on_error := false; on_connected := false;
     connection_attempts := 0;
     last_error := None;
     auto_reconnect := true;
     reconnect_delay_base := 1%Q;
     reconnect_delay_max := 60%Q;
     reconnect_timer := None;
     reconnect_attempts := 0;
     subscribed_topics := [];
     pending_subscriptions := [];
     message_queue :=
       MessageQueue.__init__ MessageQueue.default_max_queue_size
         MessageQueue.default_max_history;
     loop_running := false;
     status_change_calls := [];
     error_calls := [];
     connected_calls := 0;
     timers_started := [] |}.

(** *** Methods, in a state and exception monad over the wrapper *)

Inductive result (A : Type) :=
| Ok (a : A)
| Exn (e : exn).
Arguments Ok {A} a.
Arguments Exn {A} e.

Definition M (A : Type) : Type := MQTTClientWrapper -> result A * MQTTClientWrapper.

Definition ret {A} (a : A) : M A := fun c => (Ok a, c).

Definition bind {A B} (m : M A) (k : A -> M B) : M B :=
  fun c =>
    match m c with
    | (Ok a, c') => k a c'
    | (Exn e, c') => (Exn e, c')
    end.

Definition raise {A} (e : exn) : M A := fun c => (Exn e, c).

Definition gets {A} (f : MQTTClientWrapper -> A) : M A := fun c => (Ok (f c), c).

Definition modify (f : MQTTClientWrapper -> MQTTClientWrapper) : M unit :=
  fun c => (Ok tt, f c).

(** [try: m except Exception as e: h e] *)
Definition try_except {A} (m : M A) (h : exn -> M A) : M A :=
  fun c =>
    match m c with
    | (Ok a, c') => (Ok a, c')
    | (Exn e, c') => h e c'
    end.

Definition when (b : bool) (m : M unit) : M unit := if b then m else ret tt.

Definition lift {A} (r : result A) : M A := fun c => (r, c).

Notation "x <- m ;; k" := (bind m (fun x => k))
  (at level 61, m at next level, right associativity).
Notation "m ;; k" := (bind m (fun _ => k))
  (at level 61, right associativity).

(** The call into the library, with the outcome it is given. *)
Definition lib_call (r : lib_result) : M Z :=
  match r with
  | Returned rc => ret rc
  | Raised msg => raise (LibraryError msg)
  end.

(** The state a method leaves, whether it returned or raised. *)
Definition exec {A} (m : M A) (c : MQTTClientWrapper) : MQTTClientWrapper :=
  snd (m c).

(** Truth value of an optional string: [None] and the empty string are false. *)
Definition truthy (o : option string) : bool :=
  match o with
  | Some s => negb (String.eqb s "")
  | None => false
  end.

(** [str(n)] for an integer. *)
Definition str_of_Z (n : Z) : string := NilZero.string_of_int (Z.to_int n).

(** [base * (2 ** n)] with [base] a float and [2 ** n] an integer: the
    integer is first converted to a float, which raises [OverflowError]
    from [2 ** 1024] on; below that the power and the product by 1.0 are
    exact. *)
Definition float_times_pow2 (base : Q) (n : nat) : result Q :=
  if (n <? 1024)%nat
  then Ok (base * inject_Z (2 ^ Z.of_nat n))%Q
  else Exn (OverflowError "int too large to convert to float").

(** [min(a, b)]: the first argument unless the second is smaller. *)
Definition py_min (a b : Q) : Q := if Qlt_bool b a then b else a.

Section Methods.
(** [mqtt.error_string] and [mqtt.connack_string] of the library. *)
Context (error_string connack_string : Z -> string).

Definition notify_error (msg : string) : M unit :=
  hook <- gets on_error ;;
  when hook (modify (fun c => with_error_calls (error_calls c ++ [msg]) c)).

Definition _set_status (new_status : ConnectionStatus) : M unit :=
  current <- gets status ;;
  when (negb (status_eqb current new_status))
    (modify (with_status new_status) ;;
     hook <- gets on_status_change ;;
     when hook
       (modify (fun c =>
                  with_status_change_calls (status_change_calls c ++ [new_status]) c))).

Definition _cancel_reconnect_timer : M unit :=
  timer <- gets reconnect_timer ;;
  match timer with
  | Some _ => modify (with_reconnect_timer None)
  | None => ret tt
  end.

Definition _schedule_reconnect : M unit :=
  enabled <- gets auto_reconnect ;;
  h <- gets host ;;
  if negb enabled || negb (truthy h) then ret tt
  else
    _cancel_reconnect_timer ;;
    base <- gets reconnect_delay_base ;;
    attempts <- gets reconnect_attempts ;;
    maximum <- gets reconnect_delay_max ;;
    scaled <- lift (float_times_pow2 base attempts) ;;
    let delay := py_min scaled maximum in
    modify (with_reconnect_attempts (S attempts)) ;;
    modify (with_reconnect_timer (Some delay)) ;;
    modify (fun c => with_timers_started (timers_started c ++ [delay]) c).

Definition is_connected (c : MQTTClientWrapper) : bool :=
  status_eqb (status c) CONNECTED.

Definition get_status (c : MQTTClientWrapper) : ConnectionStatus := status c.

Definition get_last_error (c : MQTTClientWrapper) : option string := last_error c.

(** [connect]. The port is an integer for a caller, and whatever
    [self.port] holds ([None] before the first connect) when the call is
    made by [_attempt_reconnect]. *)
Definition connect (r : lib_result) (host : string) (port : option Z)
    (username password : option string) : M bool :=
  current <- gets status ;;
  if status_eqb current CONNECTED || status_eqb current CONNECTING then ret false
  else
    try_except
      (modify (with_target (Some host) port username password) ;;
       _set_status CONNECTING ;;
       modify (fun c => with_connection_attempts (connection_attempts c + 1) c) ;;
       rc <- lib_call r ;;
       if rc =? MQTT_ERR_SUCCESS then
         modify (with_loop_running true) ;;
         modify (fun c =>
                   with_message_queue
                     (MessageQueue.start_processing (message_queue c)) c) ;;
         ret true
       else
         modify (with_last_error
                   (Some ("Connection failed: " ++ error_string rc)%string)) ;;
         _set_status CONNECTION_FAILED ;;
         ret false)
      (fun e =>
         modify (with_last_error
                   (Some ("Connection error: " ++ exn_str e)%string)) ;;
         _set_status CONNECTION_FAILED ;;
         ret false).

Definition disconnect (r : lib_result) : M bool :=
  try_except
    (_cancel_reconnect_timer ;;
     current <- gets status ;;
     if status_eqb current CONNECTED || status_eqb current CONNECTING then
       modify (fun c =>
                 with_message_queue
                   (MessageQueue.stop_processing (message_queue c)) c) ;;
       modify (with_loop_running false) ;;
       rc <- lib_call r ;;
       if rc =? MQTT_ERR_SUCCESS then
         _set_status DISCONNECTED ;;
         ret true
       else ret false
     else
       modify (fun c =>
                 with_message_queue
                   (MessageQueue.stop_processing (message_queue c)) c) ;;
       _set_status DISCONNECTED ;;
       ret true)
    (fun e =>
       notify_error ("Disconnect error: " ++ exn_str e)%string ;;
       ret false).

Definition queue_subscription (topic : string) (qos : Z) : M bool :=
  pending <- gets pending_subscriptions ;;
  if negb (str_in topic pending) then
    modify (with_pending_subscriptions (pending ++ [topic])) ;;
    ret true
  else ret false.

Definition subscribe_to_topic (r : lib_result) (topic : string) (qos : Z)
    : M bool :=
  connected <- gets is_connected ;;
  if negb connected then queue_subscription topic qos
  else
    try_except
      (rc <- lib_call r ;;
       if rc =? MQTT_ERR_SUCCESS then
         modify (fun c =>
                   with_subscribed_topics
                     (dict_set topic qos (subscribed_topics c)) c) ;;
         ret true
       else
         notify_error
           ("Failed to subscribe to " ++ topic ++ ": " ++ error_string rc)%string ;;
         ret false)
      (fun e =>
         notify_error
           ("Subscription error for " ++ topic ++ ": " ++ exn_str e)%string ;;
         ret false).

Definition unsubscribe_from_topic (r : lib_result) (topic : string) : M bool :=
  connected <- gets is_connected ;;
  if negb connected then ret false
  else
    try_except
      (rc <- lib_call r ;;
       if rc =? MQTT_ERR_SUCCESS then
         modify (fun c =>
                   with_subscribed_topics
                     (dict_pop topic (subscribed_topics c)) c) ;;
         ret true
       else
         notify_error
           ("Failed to unsubscribe from " ++ topic ++ ": "
            ++ error_string rc)%string ;;
         ret false)
      (fun e =>
         notify_error
           ("Unsubscription error for " ++ topic ++ ": " ++ exn_str e)%string ;;
         ret false).

Definition get_subscribed_topics (c : MQTTClientWrapper) : dict Z :=
  subscribed_topics c.

Definition is_subscribed_to (topic : string) (c : MQTTClientWrapper) : bool :=
  dict_mem topic (subscribed_topics c).

(** The loop of [_on_connect] over a copy of the pending list; [subs i]
    is the outcome of the library's subscribe for the [i]-th topic of
    the copy. The subscribe is made with the default QoS 0. *)
Fixpoint subscribe_pending (subs : nat -> lib_result) (i : nat)
    (topics : list string) : M unit :=
  match topics with
  | [] => ret tt
  | topic :: rest =>
      ok <- subscribe_to_topic (subs i) topic 0 ;;
      (if ok : bool then
         pending <- gets pending_subscriptions ;;
         match list_remove topic pending with
         | Some pending' => modify (with_pending_subscriptions pending')
         | None => raise (ValueError "list.remove(x): x not in list")
         end
       else ret tt) ;;
      subscribe_pending subs (S i) rest
  end.

Definition _on_connect (rc : Z) (subs : nat -> lib_result) : M unit :=
  if rc =? 0 then
    _set_status CONNECTED ;;
    modify (with_connection_attempts 0) ;;
    modify (with_reconnect_attempts 0) ;;
    modify (with_last_error None) ;;
    _cancel_reconnect_timer ;;
    pending <- gets pending_subscriptions ;;
    match pending with
    | [] => ret tt
    | _ => subscribe_pending subs 0 pending
    end ;;
    hook <- gets on_connected ;;
    when hook (modify (fun c => with_connected_calls (S (connected_calls c)) c))
  else
    modify (with_last_error
              (Some ("Connection failed with code " ++ str_of_Z rc ++ ": "
                     ++ connack_string rc)%string)) ;;
    _set_status CONNECTION_FAILED ;;
    _schedule_reconnect.

Definition _on_disconnect (rc : Z) : M unit :=
  if negb (rc =? 0) then
    _set_status CONNECTION_LOST ;;
    _schedule_reconnect
  else
    _set_status DISCONNECTED ;;
    _cancel_reconnect_timer.

Definition _on_connect_fail : M unit :=
  modify (with_last_error (Some "Failed to establish connection to MQTT broker")) ;;
  _set_status CONNECTION_FAILED ;;
  _schedule_reconnect.

(** [_attempt_reconnect], run by the timer. *)
Definition _attempt_reconnect (r : lib_result) : M unit :=
  current <- gets status ;;
  if status_eqb current CONNECTED then ret tt
  else
    h <- gets host ;;
    match h with
    | Some target =>
        if String.eqb target "" then ret tt
        else
          p <- gets port ;;
          u <- gets username ;;
          pw <- gets password ;;
          success <- connect r target p u pw ;;
          if negb success then _schedule_reconnect else ret tt
    | None => ret tt
    end.

Definition set_auto_reconnect (enabled : bool) : M unit :=
  modify (with_auto_reconnect enabled) ;;
  when (negb enabled) _cancel_reconnect_timer.

Definition get_reconnect_attempts (c : MQTTClientWrapper) : nat :=
  reconnect_attempts c.

(** An item of the list given to [subscribe_to_topics]: a topic, or a
    [(topic, qos)] tuple. *)
Inductive topic_entry :=
| Plain (topic : string)
| WithQos (topic : string) (qos : Z).

(** The loop of [subscribe_to_topics], from the [i]-th item on, with the
    results gathered so far; [subs i] is the outcome of the library's
    subscribe for the [i]-th item, if it gets that far. *)
Fixpoint subscribe_each (subs : nat -> lib_result) (i : nat)
    (topics : list topic_entry) (qos : Z) (results : dict bool) : M (dict bool) :=
  match topics with
  | [] => ret results
  | Plain topic :: rest =>
      ok <- subscribe_to_topic (subs i) topic qos ;;
      subscribe_each subs (S i) rest qos (dict_set topic ok results)
  | WithQos topic_name topic_qos :: rest =>
      ok <- subscribe_to_topic (subs i) topic_name topic_qos ;;
      subscribe_each subs (S i) rest qos (dict_set topic_name ok results)
  end.

Definition subscribe_to_topics (subs : nat -> lib_result)
    (topics : list topic_entry) (qos : Z) : M (dict bool) :=
  subscribe_each subs 0 topics qos [].

(** The loop of [unsubscribe_from_all] over the topics listed at its
    start. *)
Fixpoint unsubscribe_each (unsubs : nat -> lib_result) (i : nat)
    (topics : list string) (all_success : bool) : M bool :=
  match topics with
  | [] => ret all_success
  | topic :: rest =>
      ok <- unsubscribe_from_topic (unsubs i) topic ;;
      unsubscribe_each unsubs (S i) rest (if ok : bool then all_success else false)
  end.

Definition unsubscribe_from_all (unsubs : nat -> lib_result) : M bool :=
  topics <- gets (fun c => keys (subscribed_topics c)) ;;
  unsubscribe_each unsubs 0 topics true.

(** *** Runs of the wrapper *)

(** The calls of the user, the callbacks of the library and the firing
    of the reconnect timer, each with the outcome of the library call it
    makes. *)
Inductive event :=
| Connect (r : lib_result) (host : string) (port : option Z)
    (username password : option string)
| Disconnect (r : lib_result)
| Subscribe (r : lib_result) (topic : string) (qos : Z)
| Unsubscribe (r : lib_result) (topic : string)
| OnConnect (rc : Z) (subs : nat -> lib_result)
| OnDisconnect (rc : Z)
| OnConnectFail
| TimerFires (r : lib_result)
| SetAutoReconnect (enabled : bool).

Definition step (c : MQTTClientWrapper) (e : event) : MQTTClientWrapper :=
  match e with
  | Connect r h p u pw => exec (connect r h p u pw) c
  | Disconnect r => exec (disconnect r) c
  | Subscribe r t q => exec (subscribe_to_topic r t q) c
  | Unsubscribe r t => exec (unsubscribe_from_topic r t) c
  | OnConnect rc subs => exec (_on_connect rc subs) c
  | OnDisconnect rc => exec (_on_disconnect rc) c
  | OnConnectFail => exec _on_connect_fail c
  | TimerFires r => exec (_attempt_reconnect r) c
  | SetAutoReconnect b => exec (set_auto_reconnect b) c
  end.

Definition run (events : list event) (c : MQTTClientWrapper) : MQTTClientWrapper :=
  fold_left step events c.
End Methods.

End MqttClient.

(** ** app.py: the topic validator *)

Module App.

(** A Python [str] is a [string]: a sequence of code points below 256. *)

(** [c.isspace()] on those code points: 9 to 13, 28 to 32, 133 and 160. *)
Definition is_space (c : ascii) : bool :=
  let n := nat_of_ascii c in
  ((9 <=? n) && (n <=? 13) || (28 <=? n) && (n <=? 32)
   || (n =? 133) || (n =? 160))%nat.

Fixpoint lstrip (s : string) : string :=
  match s with
  | EmptyString => EmptyString
  | String c r => if is_space c then lstrip r else s
  end.

Fixpoint rstrip (s : string) : string :=
  match s with
  | EmptyString => EmptyString
  | String c r =>
      match rstrip r with
      | EmptyString => if is_space c then EmptyString else String c EmptyString
      | r' => String c r'
      end
  end.

(** [s.strip()] *)
Definition strip (s : string) : string := rstrip (lstrip s).

(** [c in s] for a one-character [c]. *)
Fixpoint char_in (c : ascii) (s : string) : bool :=
  match s with
  | EmptyString => false
  | String d r => Ascii.eqb c d || char_in c r
  end.

(** [s.split(sep)] for a one-character separator. *)
Fixpoint split (sep : ascii) (s : string) : list string :=
  match s with
  | EmptyString => [EmptyString]
  | String c r =>
      if Ascii.eqb c sep then EmptyString :: split sep r
      else
        match split sep r with
        | part :: parts => String c part :: parts
        | [] => [String c EmptyString]
        end
  end.

(** [s.endswith(c)] for a one-character [c]. *)
Fixpoint endswith (c : ascii) (s : string) : bool :=
  match s with
  | EmptyString => false
  | String d EmptyString => Ascii.eqb c d
  | String _ r => endswith c r
  end.

Definition invalid_chars : list ascii :=
  [ascii_of_nat 0; ascii_of_nat 9; ascii_of_nat 10; ascii_of_nat 13].

(** The test made on each part in the loop over [topic.split('/')]. *)
Definition bad_wildcard (part : string) : bool :=
  (char_in "+" part && negb (String.eqb part "+"))
  || (char_in "#" part && negb (String.eqb part "#")).

Definition validate_topic (topic : string) : bool :=
  if String.eqb topic "" || String.eqb (strip topic) "" then false
  else if existsb (fun c => char_in c topic) invalid_chars then false
  else if existsb bad_wildcard (split "/" topic) then false
  else if char_in "#" topic && negb (endswith "#" topic) then false
  else true.

(** [s[:n]] for an integer [n] (negative counts from the end, out-of-range
    values are clamped). *)
Definition slice_to (n : Z) (s : string) : string :=
  let len := Z.of_nat (String.length s) in
  let stop := if n <? 0 then Z.max (n + len) 0 else Z.min n len in
  String.substring 0 (Z.to_nat stop) s.

Definition default_max_length : Z := 100.

Definition format_message_payload (payload : string) (max_length : Z) : string :=
  if Z.of_nat (String.length payload) <=? max_length then payload
  else slice_to max_length payload ++ "...".

(** The validity of a topic filter in the words of the specification:
    non-empty, none of NUL, tab, CR, LF, every segment that contains a
    wildcard is that single character, and [#] only in the final
    segment. *)
Definition spec_valid_topic (topic : string) : bool :=
  negb (String.eqb topic "")
  && forallb (fun c => negb (char_in c topic)) invalid_chars
  && forallb (fun part => negb (bad_wildcard part)) (split "/" topic)
  && forallb (fun part => negb (char_in "#" part)) (removelast (split "/" topic)).

(** Only whitespace (or nothing at all). *)
Fixpoint blank (s : string) : bool :=
  match s with
  | EmptyString => true
  | String c r => is_space c && blank r
  end.

End App.

(** ** Properties of message_queue.py *)

Module MessageQueueProofs.
Import Py MessageQueue.

(** A message stamped [t], for the sample runs. *)
Definition sample_message (t : float) : MQTTMessage :=
  mkMessage "sensor/a" "on" t 0 false None.

(** *** Bounded containers *)

Section DequeFacts.
Context {A : Type}.

Lemma deque_append_length (n : nat) (x : A) (d : list A) :
  (length d <= n -> length (deque_append n x d) <= n)%nat.
Proof.
  intros Hd. unfold deque_append.
  destruct (Nat.ltb_spec n (length (d ++ [x]))) as [Hlt | Hge].
  - rewrite length_app in Hlt. simpl in Hlt.
    destruct d as [| y d]; simpl in *.
    + lia.
    + rewrite length_app. simpl. lia.
  - exact Hge.
Qed.

Lemma tl_skipn_snoc (k : nat) (l : list A) (x : A) :
  (k <= length l)%nat -> tl (skipn k l ++ [x]) = skipn (S k) (l ++ [x]).
Proof.
  revert k. induction l as [| y l IH]; intros k Hk.
  - destruct k; [reflexivity | simpl in Hk; lia].
  - destruct k as [| k].
    + reflexivity.
    + simpl in Hk. change (skipn (S k) (y :: l)) with (skipn k l).
      rewrite IH by lia. reflexivity.
Qed.

Lemma deque_append_lastn (n : nat) (x : A) (l : list A) :
  deque_append n x (lastn n l) = lastn n (l ++ [x]).
Proof.
  unfold deque_append, lastn.
  rewrite !length_app, length_skipn. simpl.
  destruct (Nat.ltb_spec n (length l - (length l - n) + 1)) as [Hlt | Hge].
  - replace (length l + 1 - n)%nat with (S (length l - n)) by lia.
    apply tl_skipn_snoc. lia.
  - replace (length l - n)%nat with 0%nat by lia.
    replace (length l + 1 - n)%nat with 0%nat by lia.
    reflexivity.
Qed.

Lemma lastn_length (n : nat) (l : list A) : (length (lastn n l) <= n)%nat.
Proof. unfold lastn. rewrite length_skipn. lia. Qed.

Lemma slice_from_all (start : Z) (l : list A) :
  start + Z.of_nat (length l) <= 0 -> slice_from start l = l.
Proof.
  intros H. unfold slice_from.
  destruct (Z.ltb_spec start 0) as [Hneg | Hpos].
  - rewrite Z.max_r by lia. reflexivity.
  - rewrite Z.min_l by lia. replace start with 0 by lia. reflexivity.
Qed.

Lemma slice_from_zero (l : list A) : slice_from 0 l = l.
Proof. unfold slice_from. simpl. rewrite Z.min_l by lia. reflexivity. Qed.
End DequeFacts.

(** *** What the methods leave alone *)

(** Reporting an error touches the log of the error observer only. *)
Lemma call_on_error_state error_msg s :
  snd (call_on_error error_msg s)
  = set_calls (message_processed_calls s) (queue_full_calls s)
      (error_calls s
       ++ match on_error s with Some _ => [error_msg] | None => [] end) s.
Proof.
  unfold call_on_error. destruct s as [f1 f2 f3 f4 f5 f6 f7 f8 f9 f10 f11 f12 f13 f14 f15 f16 f17 f18].
  simpl. destruct f15 as [observer |]; simpl.
  - destruct (observer error_msg); reflexivity.
  - rewrite app_nil_r. reflexivity.
Qed.

(** [_handle_message] leaves the state of its locked block, up to the
    logs of the calls made to the observers. *)
Lemma handle_message_state now m s :
  exists processed errors,
    snd (_handle_message now m s)
    = set_calls processed (queue_full_calls s) errors (record_message now m s).
Proof.
  unfold _handle_message.
  remember (record_message now m s) as s3 eqn:E3.
  assert (Hq : queue_full_calls s3 = queue_full_calls s) by (subst s3; reflexivity).
  rewrite <- Hq. clear Hq E3.
  destruct (on_message_processed s3) as [observer |] eqn:Ho.
  - destruct (observer m) as [| e].
    + eexists _, _. reflexivity.
    + destruct (is_Exception e).
      * rewrite call_on_error_state. eexists _, _. reflexivity.
      * eexists _, _. reflexivity.
  - exists (message_processed_calls s3), (error_calls s3).
    destruct s3. reflexivity.
Qed.

(** [add_message] touches the incoming queue and the logs of the calls
    only. *)
Lemma add_message_state others now t p i s :
  exists q overflow errors,
    snd (add_message others now t p i s)
    = set_calls (message_processed_calls s) overflow errors
        (set_incoming_queue q s).
Proof.
  destruct s as [f1 f2 f3 f4 f5 f6 f7 f8 f9 f10 f11 f12 f13 f14 f15 f16 f17 f18].
  unfold add_message, call_on_error, set_calls, set_incoming_queue. simpl.
  destruct (put_nowait f3 _) as [q |]; simpl.
  - eexists _, _, _. reflexivity.
  - destruct f14 as [observer |].
    + destruct (observer _) as [| e].
      * destruct (get_nowait _) as [[o q2] |];
          [destruct (put_nowait _ _) |]; eexists _, _, _; reflexivity.
      * destruct (is_Exception e).
        -- destruct f15 as [reporter |]; simpl;
             [destruct (reporter _) |]; eexists _, _, _; reflexivity.
        -- eexists _, _, _. reflexivity.
    + destruct (get_nowait _) as [[o q2] |];
        [destruct (put_nowait _ _) |]; eexists _, _, _; reflexivity.
Qed.

(** *** What [_handle_message] does to the history *)

Lemma record_message_history now m s :
  message_history (record_message now m s)
  = deque_append (max_history s) m (message_history s)
  /\ max_history (record_message now m s) = max_history s.
Proof. split; reflexivity. Qed.

Lemma handle_message_history now m s :
  message_history (snd (_handle_message now m s))
  = deque_append (max_history s) m (message_history s).
Proof.
  destruct (handle_message_state now m s) as (processed & errors & ->).
  reflexivity.
Qed.

Lemma handle_message_max_history now m s :
  max_history (snd (_handle_message now m s)) = max_history s.
Proof.
  destruct (handle_message_state now m s) as (processed & errors & ->).
  reflexivity.
Qed.

Lemma add_message_keeps_history others now t p i s :
  message_history (snd (add_message others now t p i s)) = message_history s
  /\ max_history (snd (add_message others now t p i s)) = max_history s.
Proof.
  destruct (add_message_state others now t p i s) as (q & overflow & errors & ->).
  split; reflexivity.
Qed.

Lemma process_one_history now s :
  (message_history (process_one now s) = message_history s
   \/ exists m, message_history (process_one now s)
                = deque_append (max_history s) m (message_history s))
  /\ max_history (process_one now s) = max_history s.
Proof.
  unfold process_one.
  destruct (get_nowait (incoming_queue s)) as [[m q] |];
    [| split; [left |]; reflexivity].
  pose proof (handle_message_history now m (set_incoming_queue q s)) as Hh.
  pose proof (handle_message_max_history now m (set_incoming_queue q s)) as Hm.
  destruct (_handle_message now m (set_incoming_queue q s)) as [[u | e] s1].
  - simpl in Hh, Hm. split; [right; exists m |]; assumption.
  - simpl in Hh, Hm. destruct (is_Exception e).
    + pose proof (call_on_error_state
                    ("Error in message processing loop: " ++ text e)%string s1) as Hc.
      destruct (call_on_error _ s1) as [[u | e'] s2]; simpl in Hc; subst s2;
        (split; [right; exists m |]; assumption).
    + split; [right; exists m |]; assumption.
Qed.

Definition history_bounded (s : MessageQueueManager) : Prop :=
  (length (message_history s) <= max_history s)%nat.

Lemma apply_op_history_bounded s o :
  history_bounded s -> history_bounded (apply_op s o).
Proof.
  unfold history_bounded. intros H.
  destruct o as [now t p i | now | now m | | | | | processed overflow errors];
    simpl.
  - destruct (add_message_keeps_history undisturbed now t p i s) as [-> ->].
    exact H.
  - destruct (process_one_history now s) as [[-> | [m ->]] ->].
    + exact H.
    + apply deque_append_length. exact H.
  - rewrite handle_message_history, handle_message_max_history.
    apply deque_append_length. exact H.
  - lia.
  - exact H.
  - unfold start_processing. destruct (processing_thread s); exact H.
  - unfold stop_processing. destruct (processing_thread s); exact H.
  - exact H.
Qed.

Lemma apply_op_max_history s o : max_history (apply_op s o) = max_history s.
Proof.
  destruct o as [now t p i | now | now m | | | | | processed overflow errors];
    simpl; try reflexivity.
  - apply add_message_keeps_history.
  - apply process_one_history.
  - apply handle_message_max_history.
  - unfold start_processing. destruct (processing_thread s); reflexivity.
  - unfold stop_processing. destruct (processing_thread s); reflexivity.
Qed.

Lemma run_history_bounded ops s :
  history_bounded s ->
  history_bounded (run ops s) /\ max_history (run ops s) = max_history s.
Proof.
  revert s. induction ops as [| o ops IH]; intros s H.
  - split; [exact H | reflexivity].
  - destruct (IH (apply_op s o) (apply_op_history_bounded s o H)) as [Hb Hm].
    split; [exact Hb |].
    change (run (o :: ops) s) with (run ops (apply_op s o)).
    rewrite Hm. apply apply_op_max_history.
Qed.

Lemma handle_all_history feed : forall s seen,
  message_history s = lastn (max_history s) seen ->
  message_history (handle_all feed s)
  = lastn (max_history s) (seen ++ map snd feed)
  /\ max_history (handle_all feed s) = max_history s.
Proof.
  induction feed as [| [now m] feed IH]; intros s seen Hs; simpl.
  - rewrite app_nil_r. split; [exact Hs | reflexivity].
  - destruct (IH (snd (_handle_message now m s)) (seen ++ [m])) as [Hh Hm].
    + rewrite handle_message_history, handle_message_max_history, Hs.
      apply deque_append_lastn.
    + rewrite handle_message_max_history in Hh, Hm.
      rewrite <- app_assoc in Hh. split; assumption.
Qed.

(** C5. The history never holds more than [max_history] messages (1000 by
    default) in any state reached from a fresh manager by any sequence of
    its operations, and after any feed of messages has been handled the
    history is exactly the last [max_history] of them, in arrival order:
    for a feed longer than the capacity, the most recent [max_history]
    messages, the oldest ones having been dropped first. *)
Theorem history_capacity (queue_size : Z) (capacity : nat) :
  default_max_history = 1000%nat
  /\ (forall ops,
        (length (message_history (run ops (__init__ queue_size capacity)))
         <= capacity)%nat)
  /\ (forall feed,
        let arrived := map snd feed in
        let kept :=
          message_history (handle_all feed (__init__ queue_size capacity)) in
        kept = skipn (length arrived - capacity) arrived
        /\ ((capacity < length arrived)%nat -> length kept = capacity)).
Proof.
  split; [reflexivity |]. split.
  - intros ops.
    destruct (run_history_bounded ops (__init__ queue_size capacity)) as [Hb Hm].
    + unfold history_bounded. simpl. lia.
    + unfold history_bounded in Hb. rewrite Hm in Hb. exact Hb.
  - intros feed arrived kept.
    destruct (handle_all_history feed (__init__ queue_size capacity) [])
      as [Hh _]; [reflexivity |].
    simpl in Hh. fold arrived in Hh. fold kept in Hh.
    split; [exact Hh |].
    intros Hlong. rewrite Hh. unfold lastn. rewrite length_skipn. lia.
Qed.

Lemma history_capacity_witness :
  message_history
    (handle_all
       [(1%float, sample_message 1); (2%float, sample_message 2);
        (3%float, sample_message 3)]
       (__init__ 10000 2))
  = [sample_message 2; sample_message 3].
Proof.
  apply (proj2 (proj2 (history_capacity 10000 2))
           [(1%float, sample_message 1); (2%float, sample_message 2);
            (3%float, sample_message 3)]).
Defined.

(** *** Enqueue on a full queue *)

Lemma full_nonempty q : full q = true -> exists oldest rest, items q = oldest :: rest.
Proof.
  unfold full, qsize. intros H.
  apply andb_true_iff in H. destruct H as [Hpos Hle].
  apply Z.ltb_lt in Hpos. apply Z.leb_le in Hle.
  destruct (items q) as [| oldest rest]; [simpl in Hle; lia |].
  exists oldest, rest. reflexivity.
Qed.

Lemma disturb_undisturbed q : disturb (fun l => l) q = q.
Proof. destruct q. reflexivity. Qed.

(** The observer is absent, or returns normally when called with [a]. *)
Definition hook_returns {A : Type} (h : hook A) (a : A) : Prop :=
  match h with
  | None => True
  | Some observer => observer a = Returns
  end.

(** [add_message] on a full queue, once the overflow observer has
    returned: the eviction and the second push. *)
Definition evict_and_retry (others : interference) (message : MQTTMessage)
    (q0 : Queue) (s1 : MessageQueueManager) : outcome bool * MessageQueueManager :=
  let q1 := disturb (before_get others) q0 in
  match items q1 with
  | [] => (Value false, set_incoming_queue q1 s1)
  | oldest :: rest =>
      let q3 := disturb (before_retry others) (mkQueue (maxsize q1) rest) in
      if full q3 then (Value false, set_incoming_queue q3 s1)
      else (Value true,
            set_incoming_queue (mkQueue (maxsize q3) (items q3 ++ [message])) s1)
  end.

Lemma evict_and_retry_eq others message q0 s1 :
  match get_nowait (disturb (before_get others) q0) with
  | Some (_, q2) =>
      match put_nowait (disturb (before_retry others) q2) message with
      | Some q4 => (Value true, set_incoming_queue q4 s1)
      | None =>
          (Value false, set_incoming_queue (disturb (before_retry others) q2) s1)
      end
  | None => (Value false, set_incoming_queue (disturb (before_get others) q0) s1)
  end
  = evict_and_retry others message q0 s1.
Proof.
  unfold evict_and_retry, get_nowait, put_nowait.
  destruct (items (disturb (before_get others) q0)) as [| oldest rest];
    [reflexivity |].
  cbv beta iota zeta.
  destruct (full (disturb (before_retry others) _)); reflexivity.
Qed.

Lemma add_message_full others now t p i s :
  full (incoming_queue s) = true ->
  let message := make_message now t p i in
  let q0 := disturb (before_qsize others) (incoming_queue s) in
  let s0 := set_incoming_queue q0 s in
  add_message others now t p i s
  = match on_queue_full s with
    | None => evict_and_retry others message q0 s0
    | Some observer =>
        let s1 :=
          set_calls (message_processed_calls s) (queue_full_calls s ++ [qsize q0])
            (error_calls s) s0 in
        match observer (qsize q0) with
        | Returns => evict_and_retry others message q0 s1
        | Raises e =>
            if is_Exception e
            then
              match call_on_error
                      ("Error adding message to queue: " ++ text e)%string s1 with
              | (Value _, s2) => (Value false, s2)
              | (Uncaught e', s2) => (Uncaught e', s2)
              end
            else (Uncaught e, s1)
        end
    end.
Proof.
  intros Hfull message q0 s0.
  unfold add_message, put_nowait at 1. rewrite Hfull.
  fold message. fold q0. fold s0.
  change (on_queue_full s0) with (on_queue_full s).
  destruct (on_queue_full s) as [observer |].
  - destruct (observer (qsize q0)) as [| e];
      [apply evict_and_retry_eq | reflexivity].
  - apply evict_and_retry_eq.
Qed.

(** C4, as the code has it. On a full incoming queue [add_message] is a
    total function of the state, of what the observers do and of what the
    other threads do to the queue meanwhile. The overflow observer, when
    one is registered, is called once, with the size of the queue. When
    it is absent or returns normally, no error is reported, the oldest
    item of the queue is evicted and the push is tried once more: the
    result is [True] with the message last in the queue, or [False] with
    the message dropped when the queue is full again at the second push
    or was found empty at the eviction. When the queue respects its bound
    and no other thread touches it during the call the second push is
    accepted. When the overflow observer raises, nothing is evicted and
    the message is dropped: an [Exception] is reported to the error
    observer and the result is [False], unless the error observer raises
    in its turn; what the error observer raises, and what the overflow
    observer raises that is no [Exception], leaves [add_message]. *)
Theorem add_message_on_full_queue others now t p i s :
  full (incoming_queue s) = true ->
  let message := make_message now t p i in
  let q0 := disturb (before_qsize others) (incoming_queue s) in
  let q1 := disturb (before_get others) q0 in
  let r := add_message others now t p i s in
  queue_full_calls (snd r)
  = queue_full_calls s
    ++ match on_queue_full s with Some _ => [qsize q0] | None => [] end
  /\ (hook_returns (on_queue_full s) (qsize q0) ->
      error_calls (snd r) = error_calls s
      /\ match items q1 with
         | [] => fst r = Value false /\ incoming_queue (snd r) = q1
         | oldest :: rest =>
             let q3 := disturb (before_retry others) (mkQueue (maxsize q1) rest) in
             if full q3
             then fst r = Value false /\ incoming_queue (snd r) = q3
             else fst r = Value true
                  /\ incoming_queue (snd r)
                     = mkQueue (maxsize q3) (items q3 ++ [message])
         end)
  /\ (hook_returns (on_queue_full s) (qsize (incoming_queue s)) ->
      Z.of_nat (qsize (incoming_queue s)) <= maxsize (incoming_queue s) ->
      let r0 := add_message undisturbed now t p i s in
      fst r0 = Value true
      /\ exists oldest rest,
           items (incoming_queue s) = oldest :: rest
           /\ items (incoming_queue (snd r0)) = rest ++ [message])
  /\ (forall observer e,
        on_queue_full s = Some observer ->
        observer (qsize q0) = Raises e ->
        incoming_queue (snd r) = q0
        /\ if is_Exception e
           then
             let error_msg := ("Error adding message to queue: " ++ text e)%string in
             match on_error s with
             | None => fst r = Value false /\ error_calls (snd r) = error_calls s
             | Some reporter =>
                 error_calls (snd r) = error_calls s ++ [error_msg]
                 /\ fst r = match reporter error_msg with
                            | Returns => Value false
                            | Raises e' => Uncaught e'
                            end
             end
           else fst r = Uncaught e /\ error_calls (snd r) = error_calls s).
Proof.
  intros Hfull message q0 q1 r.
  assert (Hevict : forall s1,
             let out := evict_and_retry others message q0 s1 in
             queue_full_calls (snd out) = queue_full_calls s1
             /\ error_calls (snd out) = error_calls s1
             /\ match items q1 with
                | [] => fst out = Value false /\ incoming_queue (snd out) = q1
                | oldest :: rest =>
                    let q3 :=
                      disturb (before_retry others) (mkQueue (maxsize q1) rest) in
                    if full q3
                    then fst out = Value false /\ incoming_queue (snd out) = q3
                    else fst out = Value true
                         /\ incoming_queue (snd out)
                            = mkQueue (maxsize q3) (items q3 ++ [message])
                end).
  { intros s1 out. subst out. unfold evict_and_retry. fold q1.
    destruct (items q1) as [| oldest rest]; [repeat split |].
    cbv zeta. destruct (full (disturb (before_retry others) _)); repeat split. }
  split; [| split; [| split]].
  - subst r. rewrite (add_message_full others now t p i s Hfull).
    fold message. fold q0.
    destruct (on_queue_full s) as [observer |].
    + cbv zeta. destruct (observer (qsize q0)) as [| e].
      * destruct (Hevict (set_calls (message_processed_calls s)
                            (queue_full_calls s ++ [qsize q0]) (error_calls s)
                            (set_incoming_queue q0 s))) as (-> & _).
        reflexivity.
      * destruct (is_Exception e); [| reflexivity].
        destruct (call_on_error _ _) as [[u | e'] s2] eqn:Hc;
          apply (f_equal snd) in Hc; rewrite call_on_error_state in Hc;
          simpl in Hc; subst s2; reflexivity.
    + destruct (Hevict (set_incoming_queue q0 s)) as (-> & _).
      simpl. rewrite app_nil_r. reflexivity.
  - intros Hreturns. subst r.
    rewrite (add_message_full others now t p i s Hfull).
    fold message. fold q0.
    destruct (on_queue_full s) as [observer |].
    + simpl in Hreturns. cbv zeta. rewrite Hreturns.
      destruct (Hevict (set_calls (message_processed_calls s)
                          (queue_full_calls s ++ [qsize q0]) (error_calls s)
                          (set_incoming_queue q0 s))) as (_ & -> & Hq).
      split; [reflexivity | exact Hq].
    + destruct (Hevict (set_incoming_queue q0 s)) as (_ & -> & Hq).
      split; [reflexivity | exact Hq].
  - intros Hreturns Hbound r0.
    destruct (full_nonempty _ Hfull) as (oldest & rest & Hitems).
    assert (Hrun : forall s1,
               evict_and_retry undisturbed message (incoming_queue s) s1
               = (Value true,
                  set_incoming_queue
                    (mkQueue (maxsize (incoming_queue s)) (rest ++ [message])) s1)).
    { intros s1. unfold evict_and_retry, undisturbed, disturb.
      cbn [before_get before_retry maxsize items]. rewrite Hitems.
      assert (Hnot : full (mkQueue (maxsize (incoming_queue s)) rest) = false).
      { unfold full, qsize in *. simpl. rewrite Hitems in Hbound.
        simpl in Hbound. apply andb_false_iff. right. apply Z.leb_gt. lia. }
      rewrite Hnot. reflexivity. }
    assert (Hr0 : fst r0 = Value true
                  /\ items (incoming_queue (snd r0)) = rest ++ [message]).
    { subst r0. rewrite (add_message_full undisturbed now t p i s Hfull).
      fold message.
      assert (Hq0 : disturb (before_qsize undisturbed) (incoming_queue s)
                    = incoming_queue s) by apply disturb_undisturbed.
      rewrite Hq0.
      destruct (on_queue_full s) as [observer |].
      - simpl in Hreturns. cbv zeta. rewrite Hreturns, Hrun. split; reflexivity.
      - rewrite Hrun. split; reflexivity. }
    split; [apply Hr0 |]. exists oldest, rest. split; [exact Hitems | apply Hr0].
  - intros observer e Hobserver Hraises. subst r.
    rewrite (add_message_full others now t p i s Hfull).
    fold message. fold q0. rewrite Hobserver. cbv zeta. rewrite Hraises.
    destruct (is_Exception e); [| repeat split].
    unfold call_on_error. cbn [on_error set_calls set_incoming_queue].
    destruct (on_error s) as [reporter |]; [| repeat split].
    cbv zeta. destruct (reporter _); repeat split.
Qed.

(** A bounded queue of two items, with an overflow observer registered
    that returns. *)
Definition full_manager : MessageQueueManager :=
  set_incoming_queue (mkQueue 2 [sample_message 1; sample_message 2])
    (set_observers None (Some (fun _ => Returns)) None (__init__ 2 1000)).

Lemma add_message_on_full_queue_witness :
  full (incoming_queue full_manager) = true
  /\ fst (add_message undisturbed 3 "sensor/a" "on" (mkInfo None None None None)
            full_manager)
     = Value true.
Proof.
  split; [reflexivity |].
  apply (add_message_on_full_queue undisturbed 3 "sensor/a" "on"
           (mkInfo None None None None) full_manager eq_refl).
  - reflexivity.
  - vm_compute. discriminate.
Defined.

(** The same queue, with an overflow observer that raises an
    [Exception] and an error observer that raises one too. *)
Definition faulty_manager : MessageQueueManager :=
  set_incoming_queue (mkQueue 2 [sample_message 1; sample_message 2])
    (set_observers None
       (Some (fun _ => Raises (mkException true "overflow observer failed")))
       (Some (fun _ => Raises (mkException true "error observer failed")))
       (__init__ 2 1000)).

(** C4, as it is worded, fails. With observers that raise, [add_message]
    on a full queue calls the overflow observer, evicts nothing, does not
    try the push again, and the exception of the error observer leaves
    the method. With the error observer returning, the result is [False]
    although one eviction would have made room. With the observers
    returning but another producer refilling the queue between the
    eviction and the second push, the message is dropped. *)
Lemma add_message_observer_fault_escapes :
  let info := mkInfo None None None None in
  let r := add_message undisturbed 3 "sensor/a" "on" info faulty_manager in
  let quiet :=
    set_observers None (on_queue_full faulty_manager) (Some (fun _ => Returns))
      faulty_manager in
  let r' := add_message undisturbed 3 "sensor/a" "on" info quiet in
  let refilled :=
    mkInterference (fun l => l) (fun l => l) (fun l => l ++ [sample_message 4]) in
  let r'' := add_message refilled 3 "sensor/a" "on" info full_manager in
  full (incoming_queue faulty_manager) = true
  /\ fst r = Uncaught (mkException true "error observer failed")
  /\ queue_full_calls (snd r) = [2%nat]
  /\ error_calls (snd r)
     = ["Error adding message to queue: overflow observer failed"]
  /\ items (incoming_queue (snd r)) = [sample_message 1; sample_message 2]
  /\ fst r' = Value false
  /\ items (incoming_queue (snd r')) = [sample_message 1; sample_message 2]
  /\ fst r'' = Value false
  /\ items (incoming_queue (snd r'')) = [sample_message 2; sample_message 4].
Proof. vm_compute. repeat split. Qed.

(** *** The message rate *)

(** The samples [_update_message_rate] keeps, and the rate it stores. *)
Definition in_window (now : float) (w : nat) (history : list float) : list float :=
  popleft_while (fun t => PrimFloat.ltb t (now - float_of_nat w)%float) history.










(** *** Evenly spaced stamps, and the value of a float *)
















(** C10. [get_recent_messages(0)] returns the whole history, the same
    list as [get_recent_messages(None)], and so does every count above
    the length of the history. *)
Theorem get_recent_messages_degenerate (s : MessageQueueManager) :
  get_recent_messages (Some 0) s = get_recent_messages None s
  /\ get_recent_messages (Some 0) s = message_history s
  /\ forall count,
       Z.of_nat (length (message_history s)) < count ->
       get_recent_messages (Some count) s = message_history s.
Proof.
  split; [| split].
  - apply slice_from_zero.
  - apply slice_from_zero.
  - intros count Hc. simpl. apply slice_from_all. lia.
Qed.

Lemma get_recent_messages_degenerate_witness :
  get_recent_messages (Some 5)
    (handle_all [(1%float, sample_message 1); (2%float, sample_message 2)]
       (__init__ 10000 1000))
  = [sample_message 1; sample_message 2].
Proof.
  apply (proj2 (proj2 (get_recent_messages_degenerate
                         (handle_all
                            [(1%float, sample_message 1); (2%float, sample_message 2)]
                            (__init__ 10000 1000))))).
  reflexivity.
Defined.

(** *** The order on the rationals of the delays *)

Lemma Qlt_bool_iff (x y : Q) : Qlt_bool x y = true <-> (x < y)%Q.
Proof.
  unfold Qlt_bool. rewrite negb_true_iff. split.
  - intros H. apply Qnot_le_lt. intros Hle.
    apply Qle_bool_iff in Hle. congruence.
  - intros H. destruct (Qle_bool y x) eqn:E; [| reflexivity].
    apply Qle_bool_iff in E. exfalso. exact (Qlt_not_le _ _ H E).
Qed.

Lemma Qlt_bool_false (x y : Q) : (y <= x)%Q -> Qlt_bool x y = false.
Proof.
  intros H. destruct (Qlt_bool x y) eqn:E; [| reflexivity].
  apply Qlt_bool_iff in E. exfalso. exact (Qlt_not_le _ _ E H).
Qed.

End MessageQueueProofs.

(** ** Properties of the topic validator *)

Module AppProofs.
Import App.

Lemma lstrip_blank s : lstrip s = EmptyString <-> blank s = true.
Proof.
  induction s as [| c r IH]; simpl.
  - split; reflexivity.
  - destruct (is_space c); simpl.
    + exact IH.
    + split; discriminate.
Qed.

Lemma rstrip_nonblank s : blank s = false -> rstrip s <> EmptyString.
Proof.
  induction s as [| c r IH]; simpl.
  - discriminate.
  - intros H. destruct (rstrip r) eqn:E.
    + destruct (is_space c); simpl in H; [| discriminate].
      exfalso. exact (IH H eq_refl).
    + discriminate.
Qed.

Lemma lstrip_nonblank s : blank s = false -> blank (lstrip s) = false.
Proof.
  induction s as [| c r IH]; simpl.
  - discriminate.
  - destruct (is_space c) eqn:E; simpl.
    + exact IH.
    + rewrite E. reflexivity.
Qed.

Lemma strip_blank s : String.eqb (strip s) "" = blank s.
Proof.
  unfold strip. destruct (blank s) eqn:B.
  - apply lstrip_blank in B. rewrite B. reflexivity.
  - apply String.eqb_neq. apply rstrip_nonblank. apply lstrip_nonblank. exact B.
Qed.

Lemma split_nonempty sep s : split sep s <> [].
Proof.
  destruct s as [| c r]; simpl; [discriminate |].
  destruct (Ascii.eqb c sep); [discriminate |].
  destruct (split sep r); discriminate.
Qed.

(** A character other than the separator is in the string exactly when
    it is in one of its parts. *)
Lemma char_in_split sep c s :
  Ascii.eqb c sep = false ->
  char_in c s = existsb (char_in c) (split sep s).
Proof.
  intros Hc. induction s as [| d r IH]; simpl.
  - reflexivity.
  - destruct (Ascii.eqb d sep) eqn:E; simpl.
    + apply Ascii.eqb_eq in E. subst d. rewrite Hc. exact IH.
    + rewrite IH. destruct (split sep r) as [| part parts] eqn:S.
      * exfalso. exact (split_nonempty _ _ S).
      * simpl. apply orb_assoc.
Qed.

Lemma split_of_nonempty sep e r : split sep (String e r) <> [EmptyString].
Proof.
  simpl. destruct (Ascii.eqb e sep).
  - intros H. injection H as H. exact (split_nonempty _ _ H).
  - destruct (split sep r); discriminate.
Qed.

(** The string ends with such a character exactly when its last part
    does. *)
Lemma endswith_split sep c s :
  Ascii.eqb c sep = false ->
  endswith c s = endswith c (last (split sep s) EmptyString).
Proof.
  intros Hc. induction s as [| d r IH].
  - reflexivity.
  - destruct r as [| e r'].
    + simpl. destruct (Ascii.eqb d sep) eqn:E; simpl; [| reflexivity].
      apply Ascii.eqb_eq in E. subst d. exact Hc.
    + change (endswith c (String d (String e r')))
        with (endswith c (String e r')).
      rewrite IH.
      change (split sep (String d (String e r')))
        with (if Ascii.eqb d sep then EmptyString :: split sep (String e r')
              else match split sep (String e r') with
                   | part :: parts => String d part :: parts
                   | [] => [String d EmptyString]
                   end).
      pose proof (split_nonempty sep (String e r')) as Hne.
      pose proof (split_of_nonempty sep e r') as Hne'.
      destruct (split sep (String e r')) as [| part parts]; [congruence |].
      destruct (Ascii.eqb d sep).
      * reflexivity.
      * destruct parts as [| part' parts']; [| reflexivity].
        destruct part as [| f part]; [congruence | reflexivity].
Qed.

Section ListFacts.
Context {A : Type}.

Lemma existsb_false_forallb (p : A -> bool) (l : list A) :
  existsb p l = false <-> forallb (fun x => negb (p x)) l = true.
Proof.
  induction l as [| x l IH]; simpl.
  - split; reflexivity.
  - rewrite orb_false_iff, andb_true_iff, negb_true_iff, IH. reflexivity.
Qed.

Lemma existsb_false_In (p : A -> bool) (l : list A) :
  existsb p l = false -> forall x, In x l -> p x = false.
Proof.
  intros H x Hx. destruct (p x) eqn:E; [| reflexivity].
  assert (existsb p l = true) by (apply existsb_exists; eauto). congruence.
Qed.

Lemma only_in_last (p : A -> bool) (l : list A) (d : A) :
  existsb p l = true ->
  forallb (fun x => negb (p x)) (removelast l) = true ->
  p (last l d) = true.
Proof.
  induction l as [| x l IH]; simpl; [discriminate |].
  destruct l as [| y l'].
  - rewrite orb_false_r. intros H _. exact H.
  - intros H Hf. simpl in Hf. apply andb_true_iff in Hf. destruct Hf as [Hx Hf].
    apply negb_true_iff in Hx. rewrite Hx in H. simpl in H.
    apply IH; assumption.
Qed.

Lemma last_In (l : list A) (d : A) : l <> [] -> In (last l d) l.
Proof.
  induction l as [| x l IH]; [congruence |]. intros _.
  destruct l as [| y l']; [left; reflexivity |].
  right. apply IH. discriminate.
Qed.
End ListFacts.

Lemma endswith_char_in c s : endswith c s = true -> char_in c s = true.
Proof.
  induction s as [| d r IH]; [discriminate |].
  destruct r as [| e r'].
  - simpl. intros ->. reflexivity.
  - change (endswith c (String d (String e r'))) with (endswith c (String e r')).
    intros H. simpl. simpl in IH. rewrite (IH H). apply orb_true_r.
Qed.

Lemma bad_wildcard_false part :
  bad_wildcard part = false ->
  (char_in "+" part = true -> part = "+"%string)
  /\ (char_in "#" part = true -> part = "#"%string).
Proof.
  unfold bad_wildcard. intros H. apply orb_false_iff in H. destruct H as [Hp Hh].
  split; intros Hc; [rewrite Hc in Hp | rewrite Hc in Hh]; simpl in *.
  - apply negb_false_iff in Hp. apply String.eqb_eq. exact Hp.
  - apply negb_false_iff in Hh. apply String.eqb_eq. exact Hh.
Qed.

(** C9, as the code has it. A topic that is not made of whitespace only
    and meets the four conditions of the specification is accepted; an
    accepted topic is not empty and not made of whitespace only, holds
    none of NUL, tab, LF, CR, has every part with a wildcard equal to
    that one character, and, when it holds [#], has [#] as its final
    part. The four sample topics are judged as the specification says. *)
Theorem validate_topic_accepts :
  (forall topic,
     spec_valid_topic topic = true -> blank topic = false ->
     validate_topic topic = true)
  /\ (forall topic,
        validate_topic topic = true ->
        topic <> ""%string
        /\ blank topic = false
        /\ (forall c, In c invalid_chars -> char_in c topic = false)
        /\ (forall part, In part (split "/" topic) ->
              (char_in "+" part = true -> part = "+"%string)
              /\ (char_in "#" part = true -> part = "#"%string))
        /\ (char_in "#" topic = true ->
            last (split "/" topic) EmptyString = "#"%string))
  /\ validate_topic "sensor/#/data" = false
  /\ validate_topic "a+b/x" = false
  /\ validate_topic "sensor/+/data" = true
  /\ validate_topic "home/#" = true.
Proof.
  split; [| split; [| repeat split; reflexivity]].
  - intros topic Hspec Hblank. unfold spec_valid_topic in Hspec.
    repeat (apply andb_true_iff in Hspec; destruct Hspec as [Hspec ?]).
    rename H into Hlast, H0 into Hparts, H1 into Hchars.
    apply negb_true_iff in Hspec.
    unfold validate_topic. rewrite Hspec, strip_blank, Hblank. simpl orb.
    cbv iota.
    apply existsb_false_forallb in Hchars. rewrite Hchars.
    apply existsb_false_forallb in Hparts. rewrite Hparts.
    destruct (char_in "#" topic) eqn:Hh; [| reflexivity].
    rewrite (char_in_split "/") in Hh by reflexivity.
    pose proof (only_in_last _ _ EmptyString Hh Hlast) as Hin.
    assert (Hmem : In (last (split "/" topic) EmptyString) (split "/" topic))
      by (apply last_In, split_nonempty).
    pose proof (existsb_false_In _ _ Hparts _ Hmem) as Hbad.
    apply bad_wildcard_false in Hbad. destruct Hbad as [_ Hbad].
    rewrite (endswith_split "/") by reflexivity.
    rewrite (Hbad Hin). reflexivity.
  - intros topic H. unfold validate_topic in H.
    destruct (String.eqb topic "") eqn:He; [discriminate H |].
    rewrite strip_blank in H.
    destruct (blank topic) eqn:Hb; [discriminate H |]. cbn [orb] in H.
    destruct (existsb (fun c => char_in c topic) invalid_chars) eqn:Hc;
      [discriminate H |].
    destruct (existsb bad_wildcard (split "/" topic)) eqn:Hp; [discriminate H |].
    destruct (char_in "#" topic && negb (endswith "#" topic)) eqn:Hh;
      [discriminate H |].
    split; [apply String.eqb_neq; exact He |].
    split; [reflexivity |].
    split; [exact (existsb_false_In _ _ Hc) |].
    split.
    + intros part Hin. apply bad_wildcard_false.
      exact (existsb_false_In _ _ Hp _ Hin).
    + intros Hhash. rewrite Hhash in Hh. simpl in Hh.
      apply negb_false_iff in Hh.
      rewrite (endswith_split "/") in Hh by reflexivity.
      assert (Hmem : In (last (split "/" topic) EmptyString) (split "/" topic))
        by (apply last_In, split_nonempty).
      apply (existsb_false_In _ _ Hp) in Hmem.
      apply bad_wildcard_false in Hmem. destruct Hmem as [_ Hmem].
      apply Hmem. apply endswith_char_in. exact Hh.
Qed.

Lemma validate_topic_accepts_witness : validate_topic "home/+/temp" = true.
Proof.
  apply (proj1 validate_topic_accepts); reflexivity.
Defined.

(** C9, as it is worded, fails: a single space is not empty, holds no
    forbidden character and no wildcard, so it meets the stated
    conditions, and the validator rejects it. *)
Lemma validate_topic_rejects_blank :
  spec_valid_topic " " = true /\ validate_topic " " = false.
Proof. split; reflexivity. Qed.

(** Two [#] parts: the check made is that the topic ends with [#]. *)
Lemma validate_topic_two_hashes : validate_topic "#/#" = true.
Proof. reflexivity. Qed.

End AppProofs.

(** ** Properties of mqtt_client.py *)

Module MqttClientProofs.
Import Py MqttClient.

(** *** What a method leaves unchanged *)

Section Frames.
(** [R c c'] relates the wrapper before a method to the wrapper after
    it; [frame R m] says that [m] moves the wrapper along [R],
    whether it returns or raises. *)
Variable R : MQTTClientWrapper -> MQTTClientWrapper -> Prop.
Hypothesis R_refl : forall c, R c c.
Hypothesis R_trans : forall a b c, R a b -> R b c -> R a c.

Definition frame {A} (m : M A) : Prop := forall c, R c (snd (m c)).

Lemma frame_ret {A} (a : A) : frame (ret a).
Proof. intros c. apply R_refl. Qed.

Lemma frame_raise {A} (e : exn) : frame (@raise A e).
Proof. intros c. apply R_refl. Qed.

Lemma frame_gets {A} (f : MQTTClientWrapper -> A) : frame (gets f).
Proof. intros c. apply R_refl. Qed.

Lemma frame_lift {A} (r : result A) : frame (lift r).
Proof. intros c. apply R_refl. Qed.

Lemma frame_lib_call r : frame (lib_call r).
Proof. destruct r; intros c; apply R_refl. Qed.

Lemma frame_modify f : (forall c, R c (f c)) -> frame (modify f).
Proof. intros H c. apply H. Qed.

Lemma frame_bind {A B} (m : M A) (k : A -> M B) :
  frame m -> (forall a, frame (k a)) -> frame (bind m k).
Proof.
  intros Hm Hk c. unfold bind. specialize (Hm c).
  destruct (m c) as [[a | e] c']; simpl in *.
  - eapply R_trans; [exact Hm | apply Hk].
  - exact Hm.
Qed.

Lemma frame_try_except {A} (m : M A) (h : exn -> M A) :
  frame m -> (forall e, frame (h e)) -> frame (try_except m h).
Proof.
  intros Hm Hh c. unfold try_except. specialize (Hm c).
  destruct (m c) as [[a | e] c']; simpl in *.
  - exact Hm.
  - eapply R_trans; [exact Hm | apply Hh].
Qed.

Lemma frame_when b m : frame m -> frame (when b m).
Proof. intros H. destruct b; [exact H | apply frame_ret]. Qed.
End Frames.

Create HintDb frames.

(** Breaks a method into its primitives, using the frames already proved
    for the methods it calls; what is left are the field updates, to be
    checked against the relation. *)
Ltac frame_steps :=
  repeat match goal with
    | |- frame _ _ => solve [auto with frames]
    | |- frame _ (ret _) => apply frame_ret; assumption
    | |- frame _ (raise _) => apply frame_raise; assumption
    | |- frame _ (gets _) => apply frame_gets; assumption
    | |- frame _ (lift _) => apply frame_lift; assumption
    | |- frame _ (lib_call _) => apply frame_lib_call; assumption
    | |- frame _ (when _ _) => apply frame_when; [assumption |]
    | |- frame _ (bind _ _) => apply frame_bind; [assumption | | intros ?]
    | |- frame _ (try_except _ _) =>
        apply frame_try_except; [assumption | | intros ?]
    | |- frame _ (modify _) => apply frame_modify; intros ?
    | |- frame _ (if ?b then _ else _) => destruct b
    | |- frame _ (match ?x with _ => _ end) => destruct x
    end.

(** The two subscription containers are left as they are. *)
Definition same_subscriptions (c c' : MQTTClientWrapper) : Prop :=
  pending_subscriptions c' = pending_subscriptions c
  /\ subscribed_topics c' = subscribed_topics c.

Lemma same_subscriptions_refl c : same_subscriptions c c.
Proof. split; reflexivity. Qed.

Lemma same_subscriptions_trans a b c :
  same_subscriptions a b -> same_subscriptions b c -> same_subscriptions a c.
Proof. intros [H1 H2] [H3 H4]. split; congruence. Qed.

Ltac frame_same :=
  pose proof same_subscriptions_refl as Hrefl;
  pose proof same_subscriptions_trans as Htrans;
  frame_steps; try (split; reflexivity).

Lemma set_status_same s : frame same_subscriptions (_set_status s).
Proof. unfold _set_status. frame_same. Qed.
#[local] Hint Resolve set_status_same : frames.

Lemma cancel_timer_same : frame same_subscriptions _cancel_reconnect_timer.
Proof. unfold _cancel_reconnect_timer. frame_same. Qed.
#[local] Hint Resolve cancel_timer_same : frames.

Lemma schedule_reconnect_same : frame same_subscriptions _schedule_reconnect.
Proof. unfold _schedule_reconnect. frame_same. Qed.
#[local] Hint Resolve schedule_reconnect_same : frames.

Lemma notify_error_same msg : frame same_subscriptions (notify_error msg).
Proof. unfold notify_error. frame_same. Qed.
#[local] Hint Resolve notify_error_same : frames.

Section WithLibrary.
Context (error_string connack_string : Z -> string).

Lemma connect_same r h p u pw :
  frame same_subscriptions (connect error_string r h p u pw).
Proof. unfold connect. frame_same. Qed.

Lemma disconnect_same r : frame same_subscriptions (disconnect r).
Proof. unfold disconnect. frame_same. Qed.

Lemma on_disconnect_same rc : frame same_subscriptions (_on_disconnect rc).
Proof. unfold _on_disconnect. frame_same. Qed.

Lemma on_connect_fail_same : frame same_subscriptions _on_connect_fail.
Proof. unfold _on_connect_fail. frame_same. Qed.

Lemma attempt_reconnect_same r :
  frame same_subscriptions (_attempt_reconnect error_string r).
Proof.
  pose proof connect_same.
  unfold _attempt_reconnect. frame_same.
Qed.

Lemma set_auto_reconnect_same b :
  frame same_subscriptions (set_auto_reconnect b).
Proof. unfold set_auto_reconnect. frame_same. Qed.
End WithLibrary.

(** The status, the reconnect timer and the reconnect counter are left
    as they are. *)
Definition same_connection (c c' : MQTTClientWrapper) : Prop :=
  status c' = status c
  /\ reconnect_timer c' = reconnect_timer c
  /\ reconnect_attempts c' = reconnect_attempts c
  /\ timers_started c' = timers_started c.

Lemma same_connection_refl c : same_connection c c.
Proof. repeat split. Qed.

Lemma same_connection_trans a b c :
  same_connection a b -> same_connection b c -> same_connection a c.
Proof. unfold same_connection. intuition congruence. Qed.

Ltac frame_connection :=
  pose proof same_connection_refl as Hrefl;
  pose proof same_connection_trans as Htrans;
  frame_steps; try (repeat split; reflexivity).

Lemma notify_error_connection msg : frame same_connection (notify_error msg).
Proof. unfold notify_error. frame_connection. Qed.
#[local] Hint Resolve notify_error_connection : frames.

Lemma subscribe_connection error_string r topic qos :
  frame same_connection (subscribe_to_topic error_string r topic qos).
Proof. unfold subscribe_to_topic, queue_subscription. frame_connection. Qed.
#[local] Hint Resolve subscribe_connection : frames.

Lemma subscribe_pending_connection error_string subs topics : forall i,
  frame same_connection (subscribe_pending error_string subs i topics).
Proof.
  induction topics as [| t rest IH]; intros i; simpl; frame_connection.
Qed.

(** *** Lists and dicts of topics *)

Lemma str_in_In x l : str_in x l = true <-> In x l.
Proof.
  unfold str_in. rewrite existsb_exists. split.
  - intros (y & Hy & E). apply String.eqb_eq in E. subst y. exact Hy.
  - intros H. exists x. split; [exact H | apply String.eqb_refl].
Qed.

Lemma str_in_not_In x l : str_in x l = false <-> ~ In x l.
Proof.
  rewrite <- str_in_In. destruct (str_in x l); split; congruence.
Qed.

Lemma list_remove_In x l :
  In x l -> exists l', list_remove x l = Some l'.
Proof.
  induction l as [| y l IH]; simpl; [contradiction |].
  intros H. destruct (String.eqb x y) eqn:E; [eexists; reflexivity |].
  apply String.eqb_neq in E.
  destruct H as [H | H]; [congruence |].
  destruct (IH H) as [l' ->]. eexists. reflexivity.
Qed.

Lemma list_remove_spec x l l' :
  list_remove x l = Some l' ->
  NoDup l ->
  NoDup l' /\ forall y, In y l' <-> In y l /\ y <> x.
Proof.
  revert l'. induction l as [| z l IH]; simpl; [discriminate |].
  intros l' H Hnd. inversion Hnd as [| ? ? Hz Hl]; subst.
  destruct (String.eqb x z) eqn:E.
  - apply String.eqb_eq in E. subst z. injection H as <-.
    split; [exact Hl |]. intros y. split.
    + intros Hy. split; [right; exact Hy | intros ->; contradiction].
    + intros [[-> | Hy] Hne]; [congruence | exact Hy].
  - apply String.eqb_neq in E.
    destruct (list_remove x l) as [r |]; [| discriminate].
    injection H as <-.
    destruct (IH r eq_refl Hl) as [Hr Hin]. split.
    + constructor; [| exact Hr]. rewrite Hin. tauto.
    + intros y. simpl. rewrite Hin. split.
      * intros [-> | [Hy Hne]]; [split; [left; reflexivity | congruence] |].
        split; [right; exact Hy | exact Hne].
      * intros [[-> | Hy] Hne]; [left; reflexivity | right; split; assumption].
Qed.

Section DictFacts.
Context {V : Type}.

Lemma keys_dict_set k (v : V) d x :
  In x (keys (dict_set k v d)) <-> x = k \/ In x (keys d).
Proof.
  induction d as [| [k' v'] d IH]; simpl.
  - split; [intros [<- | []]; left; reflexivity | intros [-> | []]; left; reflexivity].
  - destruct (String.eqb k k') eqn:E; simpl.
    + apply String.eqb_eq in E. subst k'. split; [| intros [-> | H]]; tauto.
    + unfold keys in IH. rewrite IH. split; [| intros [-> | H]]; tauto.
Qed.

Lemma keys_dict_pop k (d : dict V) x :
  In x (keys (dict_pop k d)) -> In x (keys d).
Proof.
  induction d as [| [k' v'] d IH]; simpl; [tauto |].
  destruct (String.eqb k k'); simpl; [tauto |].
  intros [H | H]; [left; exact H | right; apply IH; exact H].
Qed.
End DictFacts.

(** The library accepted the request. *)
Definition is_ok (r : lib_result) : bool :=
  match r with
  | Returned rc => rc =? MQTT_ERR_SUCCESS
  | Raised _ => false
  end.

Section Subscriptions.
Context (error_string : Z -> string).

(** [subscribe_to_topic] while not connected: the topic is queued,
    unless it is already pending, and the result tells which. *)
Lemma subscribe_queued r topic qos c :
  is_connected c = false ->
  subscribe_to_topic error_string r topic qos c
  = (Ok (negb (str_in topic (pending_subscriptions c))),
     if str_in topic (pending_subscriptions c) then c
     else with_pending_subscriptions (pending_subscriptions c ++ [topic]) c).
Proof.
  intros H. unfold subscribe_to_topic, bind, gets. rewrite H. simpl.
  unfold queue_subscription, bind, gets.
  destruct (str_in topic (pending_subscriptions c)); reflexivity.
Qed.

(** [subscribe_to_topic] while connected: the topic is recorded when
    the library accepts the request; the pending list is not touched. *)
Lemma subscribe_connected r topic qos c :
  is_connected c = true ->
  let out := subscribe_to_topic error_string r topic qos c in
  fst out = Ok (is_ok r)
  /\ pending_subscriptions (snd out) = pending_subscriptions c
  /\ subscribed_topics (snd out)
     = (if is_ok r then dict_set topic qos (subscribed_topics c)
        else subscribed_topics c)
  /\ status (snd out) = status c.
Proof.
  intros H. unfold subscribe_to_topic, bind, gets. rewrite H. simpl.
  unfold try_except, bind, lib_call, notify_error, bind, gets, when.
  destruct r as [rc | msg]; simpl.
  - destruct (rc =? MQTT_ERR_SUCCESS); simpl.
    + repeat split; reflexivity.
    + destruct (on_error c); repeat split; reflexivity.
  - destruct (on_error c); repeat split; reflexivity.
Qed.

Lemma unsubscribe_effect r topic c :
  let c' := exec (unsubscribe_from_topic error_string r topic) c in
  pending_subscriptions c' = pending_subscriptions c
  /\ forall x, In x (keys (subscribed_topics c')) ->
               In x (keys (subscribed_topics c)).
Proof.
  unfold exec, unsubscribe_from_topic, bind, gets.
  destruct (is_connected c); simpl; [| split; [reflexivity | tauto]].
  unfold try_except, bind, lib_call, notify_error, bind, gets, when.
  destruct r as [rc | msg]; simpl.
  - destruct (rc =? MQTT_ERR_SUCCESS); simpl.
    + split; [reflexivity |]. intros x. apply keys_dict_pop.
    + destruct (on_error c); split; try reflexivity; tauto.
  - destruct (on_error c); split; try reflexivity; tauto.
Qed.

(** The topics of the copy whose subscribe the library accepts, [subs i]
    being the outcome for the topic at index [i]. *)
Fixpoint accepted (subs : nat -> lib_result) (i : nat) (topics : list string)
    : list string :=
  match topics with
  | [] => []
  | topic :: rest =>
      (if is_ok (subs i) then [topic] else []) ++ accepted subs (S i) rest
  end.

Lemma accepted_nth subs topics : forall i x,
  In x (accepted subs i topics)
  <-> exists j, nth_error topics j = Some x /\ is_ok (subs (i + j)%nat) = true.
Proof.
  induction topics as [| t rest IH]; intros i x; simpl.
  - split; [contradiction | intros ([| j] & H & _); discriminate].
  - rewrite in_app_iff, IH. split.
    + intros [H | (j & Hj & Hok)].
      * destruct (is_ok (subs i)) eqn:E; [| contradiction].
        destruct H as [<- | []]. exists 0%nat.
        rewrite Nat.add_0_r. split; [reflexivity | exact E].
      * exists (S j). rewrite <- plus_n_Sm. split; assumption.
    + intros ([| j] & Hj & Hok).
      * left. simpl in Hj. injection Hj as <-.
        rewrite Nat.add_0_r in Hok. rewrite Hok. left. reflexivity.
      * right. exists j. rewrite <- plus_n_Sm in Hok. split; assumption.
Qed.

(** One turn of the loop of [_on_connect]. *)
Lemma subscribe_pending_cons subs i topic rest c :
  subscribe_pending error_string subs i (topic :: rest) c
  = match subscribe_to_topic error_string (subs i) topic 0 c with
    | (Ok true, c1) =>
        match list_remove topic (pending_subscriptions c1) with
        | Some p' =>
            subscribe_pending error_string subs (S i) rest
              (with_pending_subscriptions p' c1)
        | None => (Exn (ValueError "list.remove(x): x not in list"), c1)
        end
    | (Ok false, c1) => subscribe_pending error_string subs (S i) rest c1
    | (Exn e, c1) => (Exn e, c1)
    end.
Proof.
  simpl. unfold bind at 1.
  destruct (subscribe_to_topic error_string (subs i) topic 0 c)
    as [[[|] | e] c1]; try reflexivity.
  unfold bind, gets, modify, raise.
  destruct (list_remove topic (pending_subscriptions c1)); reflexivity.
Qed.

(** The loop of [_on_connect] over a copy [topics] of pending topics:
    it does not raise, and it moves the accepted topics, and only
    them, from the pending list to the registry. *)
Lemma subscribe_pending_spec subs topics : forall i c,
  is_connected c = true ->
  NoDup topics ->
  NoDup (pending_subscriptions c) ->
  (forall x, In x topics -> In x (pending_subscriptions c)) ->
  let out := subscribe_pending error_string subs i topics c in
  fst out = Ok tt
  /\ status (snd out) = status c
  /\ NoDup (pending_subscriptions (snd out))
  /\ (forall x, In x (pending_subscriptions (snd out))
                <-> In x (pending_subscriptions c)
                    /\ ~ In x (accepted subs i topics))
  /\ (forall x, In x (keys (subscribed_topics (snd out)))
                <-> In x (keys (subscribed_topics c))
                    \/ In x (accepted subs i topics)).
Proof.
  induction topics as [| t rest IH]; intros i c Hconn Hnd Hpend Hsub out.
  - subst out. simpl. repeat split; tauto.
  - inversion Hnd as [| ? ? Ht Hrest]; subst.
    destruct (subscribe_connected (subs i) t 0 c Hconn)
      as (Hres & Hp1 & Hs1 & Hst1).
    subst out. rewrite subscribe_pending_cons.
    destruct (subscribe_to_topic error_string (subs i) t 0 c) as [res c1].
    simpl in Hres, Hp1, Hs1, Hst1. subst res.
    assert (Hconn1 : is_connected c1 = true)
      by (unfold is_connected in *; rewrite Hst1; exact Hconn).
    simpl accepted.
    destruct (is_ok (subs i)) eqn:Hok.
    + (* accepted: the topic leaves the pending list *)
      destruct (list_remove_In t (pending_subscriptions c)) as [p' Hrm];
        [apply Hsub; left; reflexivity |].
      rewrite Hp1, Hrm.
      destruct (list_remove_spec _ _ _ Hrm Hpend) as [Hnd' Hin'].
      set (c2 := with_pending_subscriptions p' c1).
      destruct (IH (S i) c2) as (Hr & Hst & Hn & Hp & Hs).
      * exact Hconn1.
      * exact Hrest.
      * exact Hnd'.
      * intros x Hx. simpl. apply Hin'. split.
        -- apply Hsub. right. exact Hx.
        -- intros ->. contradiction.
      * split; [exact Hr |]. split; [rewrite Hst; simpl; exact Hst1 |].
        split; [exact Hn |]. split.
        -- intros x. rewrite Hp. simpl pending_subscriptions.
           rewrite Hin'. simpl In. split.
           ++ intros [[Hx Hne] Hacc]. split; [exact Hx |].
              intros [Heq | Hacc']; [congruence | contradiction].
           ++ intros [Hx Hacc]. split; [split; [exact Hx |] |].
              ** intros ->. apply Hacc. left. reflexivity.
              ** intros H. apply Hacc. right. exact H.
        -- intros x. rewrite Hs. simpl subscribed_topics.
           rewrite Hs1, keys_dict_set. simpl In.
           split; [intros [[-> | H] | H] | intros [H | [<- | H]]]; tauto.
    + (* refused: nothing moves *)
      destruct (IH (S i) c1) as (Hr & Hst & Hn & Hp & Hs).
      * exact Hconn1.
      * exact Hrest.
      * rewrite Hp1. exact Hpend.
      * intros x Hx. rewrite Hp1. apply Hsub. right. exact Hx.
      * split; [exact Hr |]. split; [rewrite Hst; exact Hst1 |].
        split; [exact Hn |]. split.
        -- intros x. rewrite Hp, Hp1. simpl. tauto.
        -- intros x. rewrite Hs, Hs1. simpl. tauto.
Qed.
Lemma set_status_run s c :
  exists c',
    _set_status s c = (Ok tt, c')
    /\ status c' = s
    /\ same_subscriptions c c'
    /\ reconnect_timer c' = reconnect_timer c
    /\ reconnect_attempts c' = reconnect_attempts c.
Proof.
  unfold _set_status, bind, gets, when, modify.
  destruct (status_eqb (status c) s) eqn:E; simpl.
  - exists c. repeat split.
    destruct (status c), s; try discriminate; reflexivity.
  - destruct (on_status_change c); eexists; repeat split.
Qed.

Lemma cancel_timer_run c :
  exists c',
    _cancel_reconnect_timer c = (Ok tt, c')
    /\ status c' = status c
    /\ same_subscriptions c c'
    /\ reconnect_timer c' = None
    /\ reconnect_attempts c' = reconnect_attempts c.
Proof.
  unfold _cancel_reconnect_timer, bind, gets, modify.
  destruct (reconnect_timer c) eqn:E; eexists; repeat split; assumption.
Qed.

Section Acknowledgment.
Context (connack_string : Z -> string).

(** [_on_connect] with result code 0: it does not raise, the status is
  Connected, the reconnect counter is 0 and no timer is pending; the
  pending topics whose subscribe is accepted, and only they, move to
  the registry. *)
Lemma on_connect_success subs c :
NoDup (pending_subscriptions c) ->
let moved := accepted subs 0 (pending_subscriptions c) in
exists c',
  _on_connect error_string connack_string 0 subs c = (Ok tt, c')
  /\ status c' = CONNECTED
  /\ reconnect_attempts c' = 0%nat
  /\ reconnect_timer c' = None
  /\ NoDup (pending_subscriptions c')
  /\ (forall x, In x (pending_subscriptions c')
            <-> In x (pending_subscriptions c) /\ ~ In x moved)
  /\ (forall x, In x (keys (subscribed_topics c'))
            <-> In x (keys (subscribed_topics c)) \/ In x moved).
Proof.
intros Hnd moved. subst moved.
unfold _on_connect. change (0 =? 0) with true. cbv iota.
unfold bind at 1.
destruct (set_status_run CONNECTED c) as (c1 & -> & Hst1 & [Hp1 Hs1] & _).
do 3 (unfold bind at 1; unfold modify at 1).
unfold bind at 1.
set (c2 := with_last_error None
         (with_reconnect_attempts 0 (with_connection_attempts 0 c1))).
destruct (cancel_timer_run c2) as (c3 & -> & Hst3 & [Hp3 Hs3] & Ht3 & Ha3).
simpl in Hst3, Hp3, Hs3, Ha3.
unfold bind at 1. unfold gets at 1.
assert (Hloop :
      (match pending_subscriptions c3 with
       | [] => ret tt
       | _ :: _ =>
           subscribe_pending error_string subs 0 (pending_subscriptions c3)
       end) c3
      = subscribe_pending error_string subs 0 (pending_subscriptions c3) c3)
  by (destruct (pending_subscriptions c3); reflexivity).
unfold bind at 1. rewrite Hloop.
assert (Hnd3 : NoDup (pending_subscriptions c3)) by congruence.
pose proof (subscribe_pending_connection error_string subs
          (pending_subscriptions c3) 0%nat c3) as (_ & Ht4 & Ha4 & _).
destruct (subscribe_pending_spec subs (pending_subscriptions c3)
        0%nat c3) as (Hr & Hst & Hn & Hp & Hs).
- unfold is_connected. rewrite Hst3, Hst1. reflexivity.
- exact Hnd3.
- exact Hnd3.
- tauto.
- destruct (subscribe_pending error_string subs 0 (pending_subscriptions c3) c3)
as [res c4].
  simpl in Hr, Hst, Hn, Hp, Hs, Ht4, Ha4. subst res.
  rewrite Hp3, Hp1 in Hp, Hs. rewrite Hs3, Hs1 in Hs.
  unfold bind, gets, when, modify.
  destruct (on_connected c4); eexists; (split; [reflexivity |]); simpl;
(split; [congruence |]);
(split; [congruence |]);
(split; [congruence |]);
(split; [exact Hn | split; [exact Hp | exact Hs]]).
Qed.
End Acknowledgment.
End Subscriptions.

(** *** The subscription registry along a run *)

(** No topic is both pending and in the registry. *)
Definition disjoint (c : MQTTClientWrapper) : Prop :=
  forall topic,
    In topic (pending_subscriptions c) ->
    ~ In topic (keys (subscribed_topics c)).

(** A subscribe that names a topic the other container does not hold:
    not in the registry when the call queues the topic, not pending when
    the call goes to the library. *)
Definition fresh_subscribe (c : MQTTClientWrapper) (e : event) : Prop :=
  match e with
  | Subscribe _ topic _ =>
      if is_connected c then ~ In topic (pending_subscriptions c)
      else ~ In topic (keys (subscribed_topics c))
  | _ => True
  end.

Section Runs.
Context (error_string connack_string : Z -> string).

#[local] Abbreviation step := (step error_string connack_string).
#[local] Abbreviation run := (run error_string connack_string).

(** Every subscribe of the run is fresh in the state it is issued in. *)
Fixpoint guarded (c : MQTTClientWrapper) (events : list event) : Prop :=
  match events with
  | [] => True
  | e :: rest => fresh_subscribe c e /\ guarded (step c e) rest
  end.

Lemma on_connect_failure_same rc subs :
  (rc =? 0) = false ->
  frame same_subscriptions (_on_connect error_string connack_string rc subs).
Proof. intros H. unfold _on_connect. rewrite H. frame_same. Qed.

(** The events that leave both containers alone. *)
Lemma step_same c e :
  match e with
  | Subscribe _ _ _ | Unsubscribe _ _ => True
  | OnConnect rc _ => (rc =? 0) = false -> same_subscriptions c (step c e)
  | _ => same_subscriptions c (step c e)
  end.
Proof.
  destruct e; simpl; unfold exec; try exact I.
  - apply connect_same.
  - apply disconnect_same.
  - intros H. apply on_connect_failure_same. exact H.
  - apply on_disconnect_same.
  - apply on_connect_fail_same.
  - apply attempt_reconnect_same.
  - apply set_auto_reconnect_same.
Qed.

Lemma step_invariant c e :
  NoDup (pending_subscriptions c) ->
  NoDup (pending_subscriptions (step c e))
  /\ (disjoint c -> fresh_subscribe c e -> disjoint (step c e)).
Proof.
  intros Hnd.
  assert (Hsame : same_subscriptions c (step c e) ->
                  NoDup (pending_subscriptions (step c e))
                  /\ (disjoint c -> fresh_subscribe c e -> disjoint (step c e))).
  { intros [Hp Hs]. unfold disjoint. rewrite Hp, Hs. tauto. }
  pose proof (step_same c e) as Hframe.
  destruct e as [r h p u pw | r | r topic qos | r topic | rc subs | rc | | r | b];
    try (apply Hsame; exact Hframe).
  - (* subscribe *)
    simpl. unfold exec. destruct (is_connected c) eqn:Hc.
    + destruct (subscribe_connected error_string r topic qos c Hc)
        as (_ & Hp & Hs & _).
      unfold disjoint. rewrite Hp, Hs. split; [exact Hnd |].
      intros Hdis Hfresh x Hx.
      destruct (is_ok r); [| apply Hdis; exact Hx].
      rewrite keys_dict_set. intros [-> | Hk]; [contradiction |].
      exact (Hdis x Hx Hk).
    + rewrite (subscribe_queued error_string r topic qos c Hc).
      unfold disjoint. simpl snd.
      destruct (str_in topic (pending_subscriptions c)) eqn:Hin.
      * split; [exact Hnd |]. intros Hdis _. exact Hdis.
      * apply str_in_not_In in Hin. simpl. split.
        -- apply NoDup_app; [exact Hnd | repeat constructor; simpl; tauto |].
           intros x Hx [<- | []]. contradiction.
        -- intros Hdis Hfresh x Hx. apply in_app_iff in Hx.
           destruct Hx as [Hx | [<- | []]]; [apply Hdis; exact Hx | exact Hfresh].
  - (* unsubscribe *)
    simpl. destruct (unsubscribe_effect error_string r topic c) as [Hp Hs].
    unfold disjoint. rewrite Hp. split; [exact Hnd |].
    intros Hdis _ x Hx Hk. exact (Hdis x Hx (Hs x Hk)).
  - (* connect acknowledgment *)
    destruct (rc =? 0) eqn:Hrc; [| apply Hsame; apply Hframe; reflexivity].
    apply Z.eqb_eq in Hrc. subst rc. simpl. unfold exec.
    destruct (on_connect_success error_string connack_string subs c Hnd)
      as (c' & -> & _ & _ & _ & Hn & Hp & Hs).
    simpl. split; [exact Hn |].
    intros Hdis _ x Hx Hk. apply Hp in Hx. apply Hs in Hk.
    destruct Hx as [Hx Hmoved]. destruct Hk as [Hk | Hk]; [| contradiction].
    exact (Hdis x Hx Hk).
Qed.

Lemma run_invariant events : forall c,
  NoDup (pending_subscriptions c) ->
  NoDup (pending_subscriptions (run events c))
  /\ (disjoint c -> guarded c events -> disjoint (run events c)).
Proof.
  induction events as [| e rest IH]; intros c Hnd.
  - split; [exact Hnd | tauto].
  - destruct (step_invariant c e Hnd) as [Hnd' Hstep].
    destruct (IH (step c e) Hnd') as [Hn Hd].
    split; [exact Hn |].
    intros Hdis [Hfresh Hrest]. apply Hd; [apply Hstep; assumption | exact Hrest].
Qed.
End Runs.

(** The library's message tables, for the sample runs. *)
Definition sample_error_string (rc : Z) : string := "error".

#[local] Abbreviation sample_run := (run sample_error_string sample_error_string).
#[local] Abbreviation accept := (Returned 0).

(** C3, as the code has it. In every state reached from a fresh wrapper
    by any sequence of connect, disconnect, subscribe, unsubscribe,
    acknowledgment, connection-loss and timer events the pending list
    holds no topic twice; and pending list and registry are disjoint in
    every state reached by a sequence in which no subscribe is issued,
    while not connected, for a topic of the registry, nor, while
    connected, for a topic still pending. *)
Theorem pending_and_active_disjoint error_string connack_string events :
  let c := run error_string connack_string events __init__ in
  NoDup (pending_subscriptions c)
  /\ (guarded error_string connack_string __init__ events ->
      forall topic,
        ~ (In topic (pending_subscriptions c)
           /\ In topic (keys (get_subscribed_topics c)))).
Proof.
  intros c.
  destruct (run_invariant error_string connack_string events __init__)
    as [Hnd Hdis]; [constructor |].
  split; [exact Hnd |].
  intros Hg topic [Hp Hk].
  apply (Hdis (fun _ H => match H with end) Hg topic Hp Hk).
Qed.

Definition queue_then_connect : list event :=
  [Subscribe accept "sensor/a" 1;
   Connect accept "broker" (Some 1883) None None;
   OnConnect 0 (fun _ => accept);
   Subscribe accept "sensor/b" 0;
   OnDisconnect 1;
   Subscribe accept "sensor/c" 0].

Lemma pending_and_active_disjoint_witness :
  ~ (In "sensor/c" (pending_subscriptions (sample_run queue_then_connect __init__))
     /\ In "sensor/c"
          (keys (get_subscribed_topics (sample_run queue_then_connect __init__)))).
Proof.
  apply (pending_and_active_disjoint sample_error_string sample_error_string
           queue_then_connect).
  vm_compute. repeat split; try (exact (fun H => H)).
  intros [H | [H | []]]; discriminate H.
Defined.

(** C3, as it is worded, fails: a topic subscribed while connected stays
    in the registry when the connection is lost, and a subscribe issued
    then queues it as pending as well. *)
Lemma pending_and_active_overlap :
  let c := sample_run
             [Connect accept "broker" (Some 1883) None None;
              OnConnect 0 (fun _ => accept);
              Subscribe accept "sensor/a" 1;
              OnDisconnect 1;
              Subscribe accept "sensor/a" 1]
             __init__ in
  status c = CONNECTION_LOST
  /\ In "sensor/a" (pending_subscriptions c)
  /\ In "sensor/a" (keys (get_subscribed_topics c)).
Proof. vm_compute. repeat split; left; reflexivity. Qed.

(** *** Subscribing while not connected *)

Lemma nth_error_accepted subs l i topic :
  NoDup l ->
  nth_error l i = Some topic ->
  In topic (accepted subs 0 l) <-> is_ok (subs i) = true.
Proof.
  intros Hnd Hi. rewrite accepted_nth. split.
  - intros (j & Hj & Hok). simpl in Hok.
    assert (i = j) as ->; [| exact Hok].
    apply (proj1 (NoDup_nth_error l) Hnd).
    + apply nth_error_Some. congruence.
    + congruence.
  - intros Hok. exists i. split; assumption.
Qed.

(** C7, as the code has it. A subscribe issued while not connected puts the
    topic at the end of the pending list and returns [True] when the topic
    is not pending yet; when it is pending already the list is left as it
    is and the call returns [False]. Either way the topic is pending
    afterwards, and the registry read by [get_subscribed_topics] and the
    status are not touched. On the next successful connect acknowledgment
    a pending topic whose subscribe the library accepts is in the registry
    and no longer pending; one whose subscribe is refused stays pending and
    does not enter the registry. *)
Theorem subscribe_while_not_connected :
  (forall error_string r topic qos c,
     is_connected c = false ->
     let out := subscribe_to_topic error_string r topic qos c in
     fst out = Ok (negb (str_in topic (pending_subscriptions c)))
     /\ pending_subscriptions (snd out)
        = (if str_in topic (pending_subscriptions c)
           then pending_subscriptions c
           else pending_subscriptions c ++ [topic])
     /\ In topic (pending_subscriptions (snd out))
     /\ get_subscribed_topics (snd out) = get_subscribed_topics c
     /\ status (snd out) = status c)
  /\ (forall error_string connack_string subs c i topic,
        NoDup (pending_subscriptions c) ->
        nth_error (pending_subscriptions c) i = Some topic ->
        let c' := exec (_on_connect error_string connack_string 0 subs) c in
        status c' = CONNECTED
        /\ (is_ok (subs i) = true ->
            In topic (keys (get_subscribed_topics c'))
            /\ ~ In topic (pending_subscriptions c'))
        /\ (is_ok (subs i) = false ->
            In topic (pending_subscriptions c')
            /\ (In topic (keys (get_subscribed_topics c'))
                -> In topic (keys (get_subscribed_topics c))))).
Proof.
  split.
  - intros error_string r topic qos c Hc out. subst out.
    rewrite (subscribe_queued error_string r topic qos c Hc). simpl fst. simpl snd.
    destruct (str_in topic (pending_subscriptions c)) eqn:Hin.
    + apply str_in_In in Hin. repeat split; assumption.
    + repeat split. simpl. apply in_app_iff. right. left. reflexivity.
  - intros error_string connack_string subs c i topic Hnd Hi c'. subst c'.
    unfold exec, get_subscribed_topics.
    destruct (on_connect_success error_string connack_string subs c Hnd)
      as (c' & -> & Hst & _ & _ & _ & Hp & Hs).
    simpl snd. pose proof (nth_error_accepted subs _ _ _ Hnd Hi) as Hacc.
    assert (Hin : In topic (pending_subscriptions c))
      by (eapply nth_error_In; exact Hi).
    split; [exact Hst |]. split.
    + intros Hok. apply Hacc in Hok. split.
      * apply Hs. right. exact Hok.
      * intros H. apply Hp in H. tauto.
    + intros Hno.
      assert (Hnot : ~ In topic (accepted subs 0 (pending_subscriptions c)))
        by (rewrite Hacc, Hno; discriminate).
      split.
      * apply Hp. split; assumption.
      * intros H. apply Hs in H. tauto.
Qed.

Lemma subscribe_while_not_connected_witness :
  fst (subscribe_to_topic sample_error_string accept "sensor/a" 2 __init__)
  = Ok true.
Proof.
  apply (proj1 subscribe_while_not_connected
           sample_error_string accept "sensor/a" 2 __init__).
  reflexivity.
Defined.

(** C7, as it is worded, fails: the second subscribe for a topic that is
    already pending, still not connected, returns [False]. *)
Lemma subscribe_pending_topic_again :
  let c := exec (subscribe_to_topic sample_error_string accept "sensor/a" 1)
             __init__ in
  is_connected c = false
  /\ pending_subscriptions c = ["sensor/a"]
  /\ subscribe_to_topic sample_error_string accept "sensor/a" 1 c
     = (Ok false, c).
Proof. vm_compute. repeat split. Qed.

(** The QoS asked for while not connected is not kept: the acknowledgment
    subscribes every pending topic with QoS 0. *)
Lemma queued_qos_is_dropped :
  get_subscribed_topics
    (sample_run
       [Subscribe accept "sensor/a" 2;
        Connect accept "broker" (Some 1883) None None;
        OnConnect 0 (fun _ => accept)]
       __init__)
  = [("sensor/a", 0)].
Proof. reflexivity. Qed.

(** *** Reconnect backoff *)


(** With the base of 1 s and the cap of 60 s the delay is [2 ** n] up to
    n = 5 and 60 from n = 6 on. *)
Lemma backoff_delay_value (n : nat) :
  (py_min (1 * inject_Z (2 ^ Z.of_nat n)) 60
   == if (n <? 6)%nat then inject_Z (2 ^ Z.of_nat n) else 60)%Q.
Proof.
  destruct (Nat.ltb_spec n 6) as [Hlt | Hge].
  - do 6 (destruct n as [| n]; [reflexivity |]). lia.
  - unfold py_min.
    assert (H : Qlt_bool 60 (1 * inject_Z (2 ^ Z.of_nat n)) = true).
    { apply MessageQueueProofs.Qlt_bool_iff. rewrite Qmult_1_l.
      change 60%Q with (inject_Z 60). rewrite <- Zlt_Qlt.
      apply Z.lt_le_trans with (2 ^ 6); [reflexivity |].
      apply Z.pow_le_mono_r; lia. }
    rewrite H. reflexivity.
Qed.

(** A client whose connection was lost, with the broker then refusing
    every reconnect attempt of the timer. *)
Definition lost_connection : MQTTClientWrapper :=
  sample_run
    [Connect accept "broker" (Some 1883) None None;
     OnConnect 0 (fun _ => accept);
     OnDisconnect 1]
    __init__.

Definition refused_attempts (n : nat) : list event :=
  repeat (TimerFires (Raised "connection refused")) n.

(** The delays of the first nine consecutive schedulings. *)
Lemma backoff_delay_sequence :
  timers_started (sample_run (refused_attempts 8) lost_connection)
  = [1; 2; 4; 8; 16; 32; 60; 60; 60]%Q.
Proof. vm_compute. reflexivity. Qed.

(** A successful acknowledgment puts the counter back to 0. *)
Lemma on_connect_resets_backoff error_string connack_string subs c :
  NoDup (pending_subscriptions c) ->
  reconnect_attempts (exec (_on_connect error_string connack_string 0 subs) c)
  = 0%nat.
Proof.
  intros Hnd. unfold exec.
  destruct (on_connect_success error_string connack_string subs c Hnd)
    as (c' & -> & _ & Ha & _). exact Ha.
Qed.

(** C6, at the input where the code leaves it. From the 1025th
    consecutive scheduling on (counter at 1024 or more) the conversion of
    [2 ** attempts] to a float raises [OverflowError] before any delay is
    computed: no timer is started, the counter stays, and the pending
    timer has been cancelled, so reconnection stops. The specification
    gives the delay 60 there. *)
Theorem schedule_reconnect_overflow c :
  auto_reconnect c = true ->
  truthy (host c) = true ->
  (1024 <= reconnect_attempts c)%nat ->
  let out := _schedule_reconnect c in
  fst out = Exn (OverflowError "int too large to convert to float")
  /\ reconnect_timer (snd out) = None
  /\ reconnect_attempts (snd out) = reconnect_attempts c
  /\ timers_started (snd out) = timers_started c.
Proof.
  intros Hauto Hhost Hn out. subst out.
  unfold _schedule_reconnect, bind, gets. rewrite Hauto, Hhost. simpl.
  unfold _cancel_reconnect_timer, bind, gets, modify, lift, float_times_pow2.
  assert (Hge : (reconnect_attempts c <? 1024)%nat = false)
    by (apply Nat.ltb_ge; exact Hn).
  destruct (reconnect_timer c) eqn:Ht; simpl; rewrite Hge; simpl;
    repeat split; try reflexivity; exact Ht.
Qed.

(** The state after 1024 consecutive schedulings: the loss of the
    connection and 1023 refused attempts. *)
Definition after_1024_schedulings : MQTTClientWrapper :=
  sample_run (refused_attempts 1023) lost_connection.

Lemma schedule_reconnect_overflow_witness :
  reconnect_attempts after_1024_schedulings = 1024%nat
  /\ fst (_schedule_reconnect after_1024_schedulings)
     = Exn (OverflowError "int too large to convert to float").
Proof.
  assert (H : reconnect_attempts after_1024_schedulings = 1024%nat)
    by (vm_compute; reflexivity).
  split; [exact H |].
  apply (schedule_reconnect_overflow after_1024_schedulings).
  - vm_compute. reflexivity.
  - vm_compute. reflexivity.
  - rewrite H. apply le_n.
Defined.

(** The attempt run by the timer in that state fails to connect and then
    raises out of [_attempt_reconnect]; no timer is left pending. *)
Lemma reconnect_stops_after_overflow :
  let out := _attempt_reconnect sample_error_string (Raised "connection refused")
               after_1024_schedulings in
  fst out = Exn (OverflowError "int too large to convert to float")
  /\ status (snd out) = CONNECTION_FAILED
  /\ reconnect_timer (snd out) = None.
Proof. vm_compute. repeat split. Qed.

(** *** A connect call that fails at once *)






(** *** Disconnecting twice *)







(** And when the library accepts the second request, that second call
    changes the state and sends the notification. *)
Lemma disconnect_refused_then_accepted :
  let connected :=
    sample_run
      [Connect accept "broker" (Some 1883) None None; OnConnect 0 (fun _ => accept)]
      (with_observers true true true __init__) in
  let first := disconnect (Returned 4) connected in
  let second := disconnect accept (snd first) in
  fst first = Ok false
  /\ status_change_calls (snd first) = [CONNECTING; CONNECTED]
  /\ fst second = Ok true
  /\ status_change_calls (snd second) = [CONNECTING; CONNECTED; DISCONNECTED].
Proof. vm_compute. repeat split. Qed.

End MqttClientProofs.
(** ** More of message_queue.py: counters, queue, worker *)

Module MessageQueueMore.
Import Py MessageQueue MessageQueueProofs.

(** *** Dicts *)

Section DictLaws.
Context {V : Type}.

Lemma dict_get_set_same k (v : V) d : dict_get k (dict_set k v d) = Some v.
Proof.
  induction d as [| [k' v'] d IH]; simpl.
  - rewrite String.eqb_refl. reflexivity.
  - destruct (String.eqb k k') eqn:E; simpl.
    + rewrite String.eqb_refl. reflexivity.
    + rewrite E. exact IH.
Qed.

Lemma dict_get_set_other k k' (v : V) d :
  k' <> k -> dict_get k' (dict_set k v d) = dict_get k' d.
Proof.
  intros Hne. induction d as [| [k0 v0] d IH]; simpl.
  - apply String.eqb_neq in Hne. rewrite Hne. reflexivity.
  - destruct (String.eqb k k0) eqn:E; simpl.
    + apply String.eqb_eq in E. subst k0.
      apply String.eqb_neq in Hne. rewrite Hne. reflexivity.
    + destruct (String.eqb k' k0); [reflexivity | exact IH].
Qed.

Lemma dict_mem_get k (d : dict V) : dict_mem k d = true <-> dict_get k d <> None.
Proof.
  unfold dict_mem, str_in, keys.
  induction d as [| [k' v'] d IH]; simpl.
  - split; [discriminate | congruence].
  - destruct (String.eqb k k'); simpl; [split; [discriminate | reflexivity] |].
    exact IH.
Qed.

Lemma dict_mem_In k (d : dict V) : dict_mem k d = true <-> In k (keys d).
Proof.
  unfold dict_mem, str_in. rewrite existsb_exists. split.
  - intros (y & Hy & E). apply String.eqb_eq in E. subst y. exact Hy.
  - intros H. exists k. split; [exact H | apply String.eqb_refl].
Qed.

Lemma keys_dict_set_old k (v : V) d :
  In k (keys d) -> keys (dict_set k v d) = keys d.
Proof.
  induction d as [| [k' v'] d IH]; simpl; [contradiction |].
  destruct (String.eqb k k') eqn:E; simpl.
  - apply String.eqb_eq in E. subst k'. reflexivity.
  - apply String.eqb_neq in E. intros [H | H]; [congruence |].
    change (k' :: keys (dict_set k v d) = k' :: keys d).
    f_equal. apply IH. exact H.
Qed.

Lemma keys_dict_set_new k (v : V) d :
  ~ In k (keys d) -> keys (dict_set k v d) = keys d ++ [k].
Proof.
  induction d as [| [k' v'] d IH]; simpl; [reflexivity |].
  intros H. destruct (String.eqb k k') eqn:E; simpl.
  - apply String.eqb_eq in E. subst k'. tauto.
  - change (k' :: keys (dict_set k v d) = k' :: (keys d ++ [k])).
    f_equal. apply IH. tauto.
Qed.

Lemma keys_dict_set_NoDup k (v : V) d :
  NoDup (keys d) -> NoDup (keys (dict_set k v d)).
Proof.
  intros H. destruct (in_dec string_dec k (keys d)) as [Hin | Hout].
  - rewrite keys_dict_set_old by exact Hin. exact H.
  - rewrite keys_dict_set_new by exact Hout.
    apply NoDup_app; [exact H | repeat constructor; simpl; tauto |].
    intros x Hx [<- | []]. contradiction.
Qed.
End DictLaws.

(** *** Counting messages *)

(** The count [topic_stats] holds for a topic, 0 for a topic it does not
    hold. *)
Definition topic_count (t : string) (s : MessageQueueManager) : Z :=
  match dict_get t (topic_stats s) with
  | Some n => n
  | None => 0
  end.

(** The number of messages of a feed published on a topic. *)
Definition published_on (t : string) (feed : list (float * MQTTMessage)) : Z :=
  Z.of_nat (length (filter (fun nm => String.eqb (topic (snd nm)) t) feed)).

(** The sum of the counts of a [topic_stats] dict. *)
Definition sum_counts (d : dict Z) : Z := fold_right (fun kv acc => snd kv + acc) 0 d.

(** The update of [topic_stats] made by [_handle_message] for a message on
    topic [t]. *)
Definition bump (t : string) (d : dict Z) : dict Z :=
  let d0 := if dict_mem t d then d else dict_set t 0 d in
  match dict_get t d0 with
  | Some n => dict_set t (n + 1) d0
  | None => d0
  end.

(** The state [process_one] leaves: the one it found when the queue is
    empty, and otherwise the state of the locked block of
    [_handle_message] for the oldest queued message, up to the logs of the
    calls made to the observers and to the worker thread, which an
    exception leaving the loop ends. *)
Lemma process_one_state now s :
  match items (incoming_queue s) with
  | [] => process_one now s = s
  | m :: rest =>
      exists processed errors alive,
        process_one now s
        = set_thread alive (shutdown_event s)
            (set_calls processed (queue_full_calls s) errors
               (record_message now m
                  (set_incoming_queue (mkQueue (maxsize (incoming_queue s)) rest) s)))
        /\ (alive = true -> processing_thread s = true)
  end.
Proof.
  unfold process_one, get_nowait.
  destruct (items (incoming_queue s)) as [| m rest]; [reflexivity |].
  destruct (handle_message_state now m
              (set_incoming_queue (mkQueue (maxsize (incoming_queue s)) rest) s))
    as (processed & errors & Hs).
  change (queue_full_calls (set_incoming_queue _ s)) with (queue_full_calls s) in Hs.
  destruct (_handle_message now m _) as [[u | e] s1]; simpl in Hs; subst s1.
  - exists processed, errors, (processing_thread s). split; [| tauto].
    reflexivity.
  - destruct (is_Exception e).
    + pose proof (call_on_error_state
                    ("Error in message processing loop: " ++ text e)%string
                    (set_calls processed (queue_full_calls s) errors
                       (record_message now m
                          (set_incoming_queue
                             (mkQueue (maxsize (incoming_queue s)) rest) s)))) as Hc.
      destruct (call_on_error _ _) as [[u | e'] s2]; simpl in Hc; subst s2.
      * exists processed,
          (errors ++ match on_error s with
                     | Some _ =>
                         [("Error in message processing loop: " ++ text e)%string]
                     | None => []
                     end),
          (processing_thread s).
        split; [| tauto]. reflexivity.
      * exists processed,
          (errors ++ match on_error s with
                     | Some _ =>
                         [("Error in message processing loop: " ++ text e)%string]
                     | None => []
                     end),
          false.
        split; [| discriminate]. reflexivity.
    + exists processed, errors, false. split; [| discriminate]. reflexivity.
Qed.

Lemma handle_message_calls now m s :
  message_processed_calls (snd (_handle_message now m s))
  = message_processed_calls s
    ++ match on_message_processed s with Some _ => [m] | None => [] end.
Proof.
  unfold _handle_message.
  change (on_message_processed (record_message now m s))
    with (on_message_processed s).
  change (message_processed_calls (record_message now m s))
    with (message_processed_calls s).
  destruct (on_message_processed s) as [observer |].
  - destruct (observer m) as [| e]; [reflexivity |].
    destruct (is_Exception e); [| reflexivity].
    rewrite call_on_error_state. reflexivity.
  - simpl. rewrite app_nil_r. reflexivity.
Qed.

Lemma handle_message_counters now m s :
  let s' := snd (_handle_message now m s) in
  total_messages s' = total_messages s + 1
  /\ topic_stats s' = bump (topic m) (topic_stats s)
  /\ last_message_time s' = Some (timestamp m)
  /\ incoming_queue s' = incoming_queue s
  /\ on_message_processed s' = on_message_processed s
  /\ message_processed_calls s'
     = message_processed_calls s
       ++ match on_message_processed s with Some _ => [m] | None => [] end
  /\ processing_thread s' = processing_thread s
  /\ shutdown_event s' = shutdown_event s
  /\ max_queue_size s' = max_queue_size s.
Proof.
  intros s'. subst s'.
  pose proof (handle_message_calls now m s) as Hcalls.
  destruct (handle_message_state now m s) as (processed & errors & Hs).
  rewrite Hs in *. repeat split; try reflexivity. exact Hcalls.
Qed.

Lemma bump_get t d :
  dict_get t (bump t d)
  = Some (match dict_get t d with Some n => n + 1 | None => 1 end).
Proof.
  unfold bump. destruct (dict_mem t d) eqn:E.
  - apply dict_mem_get in E. destruct (dict_get t d) as [n |]; [| congruence].
    apply dict_get_set_same.
  - assert (Hnone : dict_get t d = None).
    { destruct (dict_get t d) eqn:G; [| reflexivity].
      assert (dict_mem t d = true) by (apply dict_mem_get; congruence). congruence. }
    rewrite dict_get_set_same, Hnone, dict_get_set_same. reflexivity.
Qed.

Lemma bump_get_other t t' d : t' <> t -> dict_get t' (bump t d) = dict_get t' d.
Proof.
  intros Hne. unfold bump. destruct (dict_mem t d).
  - destruct (dict_get t d); [apply dict_get_set_other; exact Hne | reflexivity].
  - rewrite dict_get_set_same.
    rewrite !dict_get_set_other by exact Hne. reflexivity.
Qed.

Lemma sum_counts_set t v d :
  sum_counts (dict_set t v d)
  = sum_counts d + v - match dict_get t d with Some n => n | None => 0 end.
Proof.
  induction d as [| [k n] d IH]; simpl.
  - lia.
  - destruct (String.eqb t k); simpl; [lia | rewrite IH; lia].
Qed.

Lemma bump_sum t d : sum_counts (bump t d) = sum_counts d + 1.
Proof.
  unfold bump. destruct (dict_mem t d) eqn:E.
  - apply dict_mem_get in E. destruct (dict_get t d) as [n |] eqn:G; [| congruence].
    rewrite sum_counts_set, G. lia.
  - assert (Hnone : dict_get t d = None).
    { destruct (dict_get t d) eqn:G; [| reflexivity].
      assert (dict_mem t d = true) by (apply dict_mem_get; congruence). congruence. }
    rewrite dict_get_set_same, !sum_counts_set, dict_get_set_same, Hnone. lia.
Qed.

Lemma bump_keys t d : NoDup (keys d) -> NoDup (keys (bump t d)).
Proof.
  intros H. unfold bump.
  assert (H0 : NoDup (keys (if dict_mem t d then d else dict_set t 0 d)))
    by (destruct (dict_mem t d); [exact H | apply keys_dict_set_NoDup; exact H]).
  destruct (dict_get t (if dict_mem t d then d else dict_set t 0 d));
    [apply keys_dict_set_NoDup |]; exact H0.
Qed.

Lemma dict_set_twice t (v0 v : Z) d : dict_set t v (dict_set t v0 d) = dict_set t v d.
Proof.
  induction d as [| [k n] d IH]; simpl.
  - rewrite String.eqb_refl. reflexivity.
  - destruct (String.eqb t k) eqn:E; simpl.
    + rewrite String.eqb_refl. reflexivity.
    + rewrite E, IH. reflexivity.
Qed.

Lemma bump_eq t d :
  bump t d = dict_set t (match dict_get t d with Some n => n + 1 | None => 1 end) d.
Proof.
  unfold bump. destruct (dict_mem t d) eqn:E.
  - apply dict_mem_get in E. destruct (dict_get t d); [reflexivity | congruence].
  - assert (Hnone : dict_get t d = None).
    { destruct (dict_get t d) eqn:G; [| reflexivity].
      assert (dict_mem t d = true) by (apply dict_mem_get; congruence). congruence. }
    rewrite dict_get_set_same, Hnone. apply dict_set_twice.
Qed.

Lemma dict_set_Forall (P : string * Z -> Prop) t v d :
  Forall P d -> P (t, v) -> Forall P (dict_set t v d).
Proof.
  intros Hd Hv. induction Hd as [| [k n] d Hk Hd IH]; simpl.
  - constructor; [exact Hv | constructor].
  - destruct (String.eqb t k); constructor; assumption.
Qed.

Lemma dict_get_Forall (P : string * Z -> Prop) t n d :
  Forall P d -> dict_get t d = Some n -> P (t, n).
Proof.
  intros Hd. induction Hd as [| [k m] d Hk Hd IH]; simpl; [discriminate |].
  destruct (String.eqb t k) eqn:E; [| exact IH].
  apply String.eqb_eq in E. subst k. intros H. injection H as <-. exact Hk.
Qed.

Lemma sum_counts_lower d :
  Forall (fun kv : string * Z => 1 <= snd kv) d ->
  Z.of_nat (length d) <= sum_counts d.
Proof.
  intros H. induction H as [| [k n] d Hk Hd IH]; simpl sum_counts.
  - simpl. lia.
  - simpl in Hk. simpl length. lia.
Qed.

Lemma add_message_frame others now t p i s :
  let s' := snd (add_message others now t p i s) in
  total_messages s' = total_messages s
  /\ topic_stats s' = topic_stats s
  /\ messages_per_second s' = messages_per_second s
  /\ rate_history s' = rate_history s
  /\ rate_calculation_window s' = rate_calculation_window s
  /\ processing_thread s' = processing_thread s
  /\ shutdown_event s' = shutdown_event s
  /\ max_queue_size s' = max_queue_size s
  /\ message_processed_calls s' = message_processed_calls s
  /\ on_queue_full s' = on_queue_full s.
Proof.
  intros s'. subst s'.
  destruct (add_message_state others now t p i s) as (q & overflow & errors & ->).
  repeat split; reflexivity.
Qed.

Lemma published_on_cons t nm feed :
  published_on t (nm :: feed)
  = (if String.eqb (topic (snd nm)) t then 1 else 0) + published_on t feed.
Proof.
  unfold published_on. simpl filter.
  destruct (String.eqb (topic (snd nm)) t); simpl length; lia.
Qed.

Lemma published_on_nonneg t feed : 0 <= published_on t feed.
Proof. unfold published_on. lia. Qed.

Lemma published_on_zero t feed :
  (published_on t feed =? 0)
  = negb (existsb (fun nm => String.eqb (topic (snd nm)) t) feed).
Proof.
  induction feed as [| nm feed IH]; [reflexivity |].
  rewrite published_on_cons. simpl existsb.
  pose proof (published_on_nonneg t feed).
  destruct (String.eqb (topic (snd nm)) t); simpl orb.
  - destruct (Z.eqb_spec (1 + published_on t feed) 0); [lia | reflexivity].
  - exact IH.
Qed.

Lemma handle_all_counts_from (feed : list (float * MQTTMessage)) : forall s,
  total_messages (handle_all feed s) = total_messages s + Z.of_nat (length feed)
  /\ forall t,
       dict_get t (topic_stats (handle_all feed s))
       = if published_on t feed =? 0 then dict_get t (topic_stats s)
         else Some (topic_count t s + published_on t feed).
Proof.
  induction feed as [| [now m] feed IH]; intros s.
  - simpl. split; [lia | reflexivity].
  - change (handle_all ((now, m) :: feed) s)
      with (handle_all feed (snd (_handle_message now m s))).
    destruct (IH (snd (_handle_message now m s))) as [Ht Hc].
    destruct (handle_message_counters now m s) as (H1 & H2 & _).
    cbv zeta in H1, H2.
    split.
    + rewrite Ht, H1. simpl length. lia.
    + intros t. rewrite Hc, published_on_cons. unfold topic_count. rewrite H2.
      simpl snd. pose proof (published_on_nonneg t feed) as Hn.
      destruct (String.eqb (topic m) t) eqn:E.
      * apply String.eqb_eq in E. subst t. rewrite bump_get.
        destruct (Z.eqb_spec (published_on (topic m) feed) 0) as [H0 | H0];
          destruct (Z.eqb_spec (1 + published_on (topic m) feed) 0); try lia;
          destruct (dict_get (topic m) (topic_stats s)); f_equal; lia.
      * apply String.eqb_neq in E.
        rewrite bump_get_other by congruence. reflexivity.
Qed.

(** X1. The counters of a feed handled from any state: the total grows by the
    number of messages, the count of each topic by the number of messages
    published on it, and a topic is in [topic_stats] of a fresh manager
    exactly when a message of the feed was published on it. *)
Theorem handle_all_counts (feed : list (float * MQTTMessage)) (s : MessageQueueManager) :
  let s' := handle_all feed s in
  total_messages s' = total_messages s + Z.of_nat (length feed)
  /\ (forall t,
        dict_get t (topic_stats s')
        = if published_on t feed =? 0 then dict_get t (topic_stats s)
          else Some (topic_count t s + published_on t feed))
  /\ (forall t,
        topic_stats s = [] ->
        dict_mem t (topic_stats s')
        = existsb (fun nm => String.eqb (topic (snd nm)) t) feed).
Proof.
  intros s'. subst s'. destruct (handle_all_counts_from feed s) as [Ht Hc].
  split; [exact Ht |]. split; [exact Hc |].
  intros t Hempty.
  assert (Hget : dict_get t (topic_stats (handle_all feed s))
                 = if published_on t feed =? 0 then None
                   else Some (published_on t feed)).
  { rewrite Hc. unfold topic_count. rewrite Hempty. reflexivity. }
  rewrite published_on_zero in Hget.
  destruct (dict_mem t (topic_stats (handle_all feed s))) eqn:M.
  - apply dict_mem_get in M. rewrite Hget in M.
    destruct (existsb _ feed); [reflexivity | simpl in M; congruence].
  - destruct (existsb (fun nm => String.eqb (topic (snd nm)) t) feed) eqn:X;
      [| reflexivity].
    simpl in Hget.
    assert (dict_mem t (topic_stats (handle_all feed s)) = true)
      by (apply dict_mem_get; congruence).
    congruence.
Qed.

Lemma handle_all_counts_witness :
  dict_mem "sensor/a"
    (topic_stats (handle_all [(1%float, sample_message 1)] (__init__ 10000 1000)))
  = true.
Proof.
  apply (proj2 (proj2 (handle_all_counts [(1%float, sample_message 1)]
                         (__init__ 10000 1000)))).
  reflexivity.
Defined.

(** *** Invariants of the manager along a run *)

Definition stats_consistent (s : MessageQueueManager) : Prop :=
  total_messages s = sum_counts (topic_stats s)
  /\ NoDup (keys (topic_stats s))
  /\ Forall (fun kv : string * Z => 1 <= snd kv) (topic_stats s).

Lemma record_message_consistent now m s :
  stats_consistent s -> stats_consistent (record_message now m s).
Proof.
  intros (Hsum & Hnd & Hpos).
  unfold stats_consistent.
  change (total_messages (record_message now m s)) with (total_messages s + 1).
  change (topic_stats (record_message now m s))
    with (bump (topic m) (topic_stats s)).
  split; [| split].
  - rewrite bump_sum. lia.
  - apply bump_keys. exact Hnd.
  - rewrite bump_eq. apply dict_set_Forall; [exact Hpos |].
    simpl. destruct (dict_get (topic m) (topic_stats s)) as [n |] eqn:G; [| lia].
    pose proof (dict_get_Forall _ _ _ _ Hpos G) as Hn. simpl in Hn. lia.
Qed.

Lemma handle_message_consistent now m s :
  stats_consistent s -> stats_consistent (snd (_handle_message now m s)).
Proof.
  intros H. destruct (handle_message_state now m s) as (processed & errors & ->).
  exact (record_message_consistent now m s H).
Qed.

Lemma process_one_consistent now s :
  stats_consistent s -> stats_consistent (process_one now s).
Proof.
  intros H. pose proof (process_one_state now s) as Hp.
  destruct (items (incoming_queue s)) as [| m rest].
  - rewrite Hp. exact H.
  - destruct Hp as (processed & errors & alive & -> & _).
    exact (record_message_consistent now m _ H).
Qed.

Lemma apply_op_consistent s o : stats_consistent s -> stats_consistent (apply_op s o).
Proof.
  intros H.
  destruct o as [now t p i | now | now m | | | | | processed overflow errors];
    simpl.
  - destruct (add_message_frame undisturbed now t p i s) as (H1 & H2 & _).
    unfold stats_consistent. cbv zeta in H1, H2. rewrite H1, H2. exact H.
  - apply process_one_consistent. exact H.
  - apply handle_message_consistent. exact H.
  - exact H.
  - repeat split; constructor.
  - unfold start_processing. destruct (processing_thread s); exact H.
  - unfold stop_processing. destruct (processing_thread s); exact H.
  - exact H.
Qed.

(** X2. In every state reached from a fresh manager by any sequence of its
    operations, whatever the observers do, the per-topic counts add up to
    [total_messages], no topic is listed twice, every listed topic has a
    count of at least 1, and so the number of active topics never exceeds
    the total. *)
Theorem statistics_add_up (queue_size : Z) (capacity : nat) (ops : list op) :
  let s := run ops (__init__ queue_size capacity) in
  total_messages s = sum_counts (topic_stats s)
  /\ NoDup (keys (topic_stats s))
  /\ (forall t n, dict_get t (topic_stats s) = Some n -> 1 <= n)
  /\ Z.of_nat (length (topic_stats s)) <= total_messages s.
Proof.
  intros s.
  assert (H : stats_consistent s).
  { subst s. unfold run.
    assert (G : forall ops s0, stats_consistent s0 ->
                               stats_consistent (fold_left apply_op ops s0)).
    { clear. induction ops as [| o ops IH]; intros s0 H0; simpl; [exact H0 |].
      apply IH, apply_op_consistent, H0. }
    apply G. repeat split; constructor. }
  destruct H as (Hsum & Hnd & Hpos).
  split; [exact Hsum |]. split; [exact Hnd |]. split.
  - intros t n G. exact (dict_get_Forall _ _ _ _ Hpos G).
  - rewrite Hsum. apply sum_counts_lower. exact Hpos.
Qed.

(** *** The incoming queue *)

Definition queue_bounded (s : MessageQueueManager) : Prop :=
  maxsize (incoming_queue s) = max_queue_size s
  /\ (0 < max_queue_size s -> Z.of_nat (qsize (incoming_queue s)) <= max_queue_size s).

(** [add_message] with no other thread at the queue: a queue that is not
    full takes the message; a full queue does not grow, and when it
    respects its bound and the overflow observer returns, it loses its
    oldest item and takes the message. *)
Lemma add_message_queue now t p i s :
  let m := make_message now t p i in
  let q := incoming_queue s in
  let r := add_message undisturbed now t p i s in
  maxsize (incoming_queue (snd r)) = maxsize q
  /\ (full q = false ->
      r = (Value true, set_incoming_queue (mkQueue (maxsize q) (items q ++ [m])) s))
  /\ (full q = true ->
      (hook_returns (on_queue_full s) (qsize q) ->
       Z.of_nat (qsize q) <= maxsize q ->
       fst r = Value true /\ items (incoming_queue (snd r)) = tl (items q) ++ [m])
      /\ (qsize (incoming_queue (snd r)) <= qsize q)%nat).
Proof.
  intros m q r.
  assert (Hq0 : disturb (before_qsize undisturbed) q = q)
    by apply disturb_undisturbed.
  assert (Hevict : forall s1,
             let out := evict_and_retry undisturbed m q s1 in
             maxsize (incoming_queue (snd out)) = maxsize q
             /\ (qsize (incoming_queue (snd out)) <= qsize q)%nat
             /\ (full q = true -> Z.of_nat (qsize q) <= maxsize q ->
                 fst out = Value true
                 /\ items (incoming_queue (snd out)) = tl (items q) ++ [m])).
  { intros s1 out. subst out. unfold evict_and_retry, undisturbed, disturb.
    cbn [before_get before_retry maxsize items]. unfold qsize.
    destruct (items q) as [| oldest rest] eqn:Hitems.
    - simpl. split; [reflexivity |]. split; [lia |].
      intros Hfull _. apply full_nonempty in Hfull.
      destruct Hfull as (o & r' & Hq). rewrite Hitems in Hq. discriminate Hq.
    - destruct (full (mkQueue (maxsize q) rest)) eqn:F; simpl.
      + split; [reflexivity |]. split; [lia |]. intros _ Hle.
        unfold full, qsize in F. simpl in F, Hle.
        apply andb_true_iff in F. destruct F as [_ F]. apply Z.leb_le in F. lia.
      + rewrite length_app. simpl. split; [reflexivity |]. split; [lia |].
        intros _ _. split; reflexivity. }
  split; [| split].
  - subst r. unfold add_message, put_nowait at 1. fold m q.
    destruct (full q) eqn:F; [| reflexivity].
    pose proof (add_message_full undisturbed now t p i s F) as Hrun.
    cbv zeta in Hrun. fold m q in Hrun. rewrite Hq0 in Hrun.
    unfold add_message, put_nowait at 1 in Hrun. fold m q in Hrun.
    rewrite F in Hrun. rewrite Hrun.
    destruct (on_queue_full s) as [observer |].
    + destruct (observer (qsize q)) as [| e]; [apply Hevict |].
      destruct (is_Exception e); [| destruct q; reflexivity].
      destruct (call_on_error _ _) as [[u | e'] s2] eqn:Hc;
        apply (f_equal snd) in Hc; rewrite call_on_error_state in Hc;
        simpl in Hc; subst s2; destruct q; reflexivity.
    + apply Hevict.
  - intros F. subst r. unfold add_message, put_nowait. fold m q. rewrite F.
    reflexivity.
  - intros F. subst r.
    rewrite (add_message_full undisturbed now t p i s F).
    fold m q. rewrite Hq0.
    destruct (on_queue_full s) as [observer |].
    + cbv zeta. destruct (observer (qsize q)) as [| e] eqn:Ho.
      * split; [intros _ Hle; apply Hevict; assumption | apply Hevict].
      * split; [intros Hret; simpl in Hret; congruence |].
        destruct (is_Exception e); [| destruct q; simpl; lia].
        destruct (call_on_error _ _) as [[u | e'] s2] eqn:Hc;
          apply (f_equal snd) in Hc; rewrite call_on_error_state in Hc;
          simpl in Hc; subst s2; destruct q; simpl; lia.
    + split; [intros _ Hle; apply Hevict; assumption | apply Hevict].
Qed.

Lemma process_one_queue now s :
  max_queue_size (process_one now s) = max_queue_size s
  /\ maxsize (incoming_queue (process_one now s)) = maxsize (incoming_queue s)
  /\ items (incoming_queue (process_one now s)) = tl (items (incoming_queue s)).
Proof.
  pose proof (process_one_state now s) as Hp.
  destruct (items (incoming_queue s)) as [| m rest] eqn:E.
  - rewrite Hp, E. repeat split.
  - destruct Hp as (processed & errors & alive & -> & _). repeat split.
Qed.

Lemma apply_op_queue_bounded s o :
  queue_bounded s ->
  queue_bounded (apply_op s o) /\ max_queue_size (apply_op s o) = max_queue_size s.
Proof.
  intros [Hmax Hb].
  destruct o as [now t p i | now | now m | | | | | processed overflow errors];
    simpl.
  - destruct (add_message_queue now t p i s) as (Hm & Hfree & Hfull).
    destruct (add_message_frame undisturbed now t p i s)
      as (_ & _ & _ & _ & _ & _ & _ & Hq & _).
    cbv zeta in Hm, Hfree, Hfull, Hq. split; [| exact Hq].
    unfold queue_bounded. rewrite Hm, Hq. split; [exact Hmax |].
    intros Hpos. destruct (full (incoming_queue s)) eqn:F.
    + destruct (Hfull eq_refl) as [_ Hle]. specialize (Hb Hpos). lia.
    + rewrite (Hfree eq_refl). unfold qsize. simpl. rewrite length_app. simpl.
      unfold full in F. rewrite Hmax in F.
      apply andb_false_iff in F. destruct F as [F | F].
      * apply Z.ltb_ge in F. lia.
      * apply Z.leb_gt in F. unfold qsize in F. lia.
  - destruct (process_one_queue now s) as (Hs & Hm & Hi).
    split; [| exact Hs]. unfold queue_bounded, qsize. rewrite Hs, Hm, Hi.
    split; [exact Hmax |]. intros Hpos. specialize (Hb Hpos). unfold qsize in Hb.
    destruct (items (incoming_queue s)); simpl in *; lia.
  - destruct (handle_message_counters now m s)
      as (_ & _ & _ & Hq & _ & _ & _ & _ & Hs).
    cbv zeta in Hq, Hs. split; [| exact Hs].
    unfold queue_bounded. rewrite Hq, Hs. split; assumption.
  - split; [split; assumption | reflexivity].
  - split; [split; assumption | reflexivity].
  - unfold start_processing.
    destruct (processing_thread s); (split; [split; assumption | reflexivity]).
  - unfold stop_processing.
    destruct (processing_thread s); (split; [split; assumption | reflexivity]).
  - split; [split; assumption | reflexivity].
Qed.

(** X3. In every state reached from a fresh manager by operations that each
    run to their end, whatever the observers do, the incoming queue of a
    bounded manager ([max_queue_size > 0]) holds at most [max_queue_size]
    items. *)
Theorem queue_never_exceeds_capacity (queue_size : Z) (capacity : nat) (ops : list op) :
  0 < queue_size ->
  Z.of_nat (qsize (incoming_queue (run ops (__init__ queue_size capacity))))
  <= queue_size.
Proof.
  intros Hpos.
  assert (G : forall ops s0, queue_bounded s0 ->
                             queue_bounded (fold_left apply_op ops s0)
                             /\ max_queue_size (fold_left apply_op ops s0)
                                = max_queue_size s0).
  { clear. induction ops as [| o ops IH]; intros s0 H0; simpl; [tauto |].
    destruct (apply_op_queue_bounded s0 o H0) as [H1 H2].
    destruct (IH (apply_op s0 o) H1) as [Hb Hm].
    split; [exact Hb |]. rewrite Hm. exact H2. }
  destruct (G ops (__init__ queue_size capacity)) as [[_ Hb] Hm].
  - split; [reflexivity | simpl; lia].
  - unfold run. rewrite Hm in Hb. simpl in Hb. apply Hb. exact Hpos.
Qed.

Lemma queue_never_exceeds_capacity_witness :
  Z.of_nat
    (qsize (incoming_queue
              (run [OpAdd 1 "sensor/a" "on" (mkInfo None None None None);
                    OpAdd 2 "sensor/a" "off" (mkInfo None None None None);
                    OpAdd 3 "sensor/b" "on" (mkInfo None None None None)]
                 (__init__ 2 1000))))
  <= 2.
Proof.
  apply (queue_never_exceeds_capacity 2 1000). reflexivity.
Defined.

(** Enqueueing a batch with nobody consuming: the results of the calls and
    the manager after the last one. *)
Fixpoint add_all (batch : list (float * string * string * MsgInfo))
    (s : MessageQueueManager) : list (outcome bool) * MessageQueueManager :=
  match batch with
  | [] => ([], s)
  | (now, t, p, i) :: rest =>
      let (ok, s1) := add_message undisturbed now t p i s in
      let (oks, s2) := add_all rest s1 in
      (ok :: oks, s2)
  end.

Definition batch_messages (batch : list (float * string * string * MsgInfo))
    : list MQTTMessage :=
  map (fun e => match e with (now, t, p, i) => make_message now t p i end) batch.

(** The overflow observer is absent, or returns whatever the size. *)
Definition overflow_observer_returns (s : MessageQueueManager) : Prop :=
  forall size, hook_returns (on_queue_full s) size.

Lemma add_all_from (capacity : nat)
    (batch : list (float * string * string * MsgInfo)) :
  (0 < capacity)%nat ->
  forall s seen,
    overflow_observer_returns s ->
    maxsize (incoming_queue s) = Z.of_nat capacity ->
    items (incoming_queue s) = lastn capacity seen ->
    fst (add_all batch s) = map (fun _ => Value true) batch
    /\ items (incoming_queue (snd (add_all batch s)))
       = lastn capacity (seen ++ batch_messages batch).
Proof.
  intros Hcap.
  induction batch as [| [[[now t] p] i] batch IH]; intros s seen Hret Hmax Hitems.
  - simpl. rewrite app_nil_r. split; [reflexivity | exact Hitems].
  - simpl add_all.
    destruct (add_message_queue now t p i s) as (Hm & Hfree & Hfull).
    destruct (add_message_frame undisturbed now t p i s)
      as (_ & _ & _ & _ & _ & _ & _ & _ & _ & Hhook).
    cbv zeta in Hm, Hfree, Hfull, Hhook.
    assert (Hstep : fst (add_message undisturbed now t p i s) = Value true
                    /\ items (incoming_queue
                                (snd (add_message undisturbed now t p i s)))
                       = lastn capacity (seen ++ [make_message now t p i])).
    { rewrite <- deque_append_lastn, <- Hitems. unfold deque_append.
      pose proof (lastn_length capacity seen) as Hlen. rewrite <- Hitems in Hlen.
      rewrite length_app. simpl length.
      destruct (full (incoming_queue s)) eqn:F.
      - destruct (Hfull eq_refl) as [Hok _].
        destruct Hok as [Hok Hit];
          [apply Hret | rewrite Hmax; unfold qsize; lia |].
        split; [exact Hok |]. rewrite Hit.
        unfold full in F. apply andb_true_iff in F. destruct F as [_ F].
        apply Z.leb_le in F. rewrite Hmax in F. unfold qsize in F.
        destruct (Nat.ltb_spec capacity (length (items (incoming_queue s)) + 1));
          [| lia].
        destruct (items (incoming_queue s)); [simpl in F; lia | reflexivity].
      - rewrite (Hfree eq_refl). simpl. split; [reflexivity |].
        unfold full in F. rewrite Hmax in F.
        apply andb_false_iff in F. destruct F as [F | F].
        + apply Z.ltb_ge in F. lia.
        + apply Z.leb_gt in F. unfold qsize in F.
          destruct (Nat.ltb_spec capacity (length (items (incoming_queue s)) + 1));
            [lia | reflexivity]. }
    destruct (add_message undisturbed now t p i s) as [ok s1].
    simpl in Hm, Hstep, Hhook.
    destruct Hstep as [-> Hit].
    destruct (IH s1 (seen ++ [make_message now t p i])) as [Hoks Hfinal].
    + unfold overflow_observer_returns. rewrite Hhook. exact Hret.
    + rewrite Hm. exact Hmax.
    + exact Hit.
    + destruct (add_all batch s1) as [oks s2]. simpl in *.
      rewrite Hoks, Hfinal, <- app_assoc. split; reflexivity.
Qed.

(** X4. Under overload with no consumer a bounded queue keeps the newest
    messages: after any batch enqueued on a fresh manager, with any
    observers registered of which the overflow observer returns, every
    call has returned [True] and the queue holds the last
    [max_queue_size] messages of the batch, in arrival order. *)
Theorem add_message_keeps_newest (queue_size capacity : nat)
    (processed : hook MQTTMessage) (overflow : hook nat) (errors : hook string)
    (batch : list (float * string * string * MsgInfo)) :
  (0 < queue_size)%nat ->
  (forall size, hook_returns overflow size) ->
  let out :=
    add_all batch
      (set_observers processed overflow errors
         (__init__ (Z.of_nat queue_size) capacity)) in
  Forall (fun ok => ok = Value true) (fst out)
  /\ length (fst out) = length batch
  /\ items (incoming_queue (snd out))
     = skipn (length batch - queue_size) (batch_messages batch).
Proof.
  intros Hpos Hret out. subst out.
  destruct (add_all_from queue_size batch Hpos
              (set_observers processed overflow errors
                 (__init__ (Z.of_nat queue_size) capacity)) [])
    as [Hoks Hitems]; [exact Hret | reflexivity | reflexivity |].
  rewrite Hoks, Hitems. simpl app. unfold lastn, batch_messages.
  rewrite !length_map. split; [| split; reflexivity].
  apply Forall_forall. intros ok Hin. apply in_map_iff in Hin.
  destruct Hin as (_ & <- & _). reflexivity.
Qed.

Lemma add_message_keeps_newest_witness :
  items (incoming_queue
           (snd (add_all [(1%float, "sensor/a", "1", mkInfo None None None None);
                          (2%float, "sensor/a", "2", mkInfo None None None None);
                          (3%float, "sensor/a", "3", mkInfo None None None None)]
                   (set_observers None (Some (fun _ => Returns)) None
                      (__init__ 2 1000)))))
  = [make_message 2 "sensor/a" "2" (mkInfo None None None None);
     make_message 3 "sensor/a" "3" (mkInfo None None None None)].
Proof.
  apply (add_message_keeps_newest 2 1000 None (Some (fun _ => Returns)) None
           [(1%float, "sensor/a", "1", mkInfo None None None None);
            (2%float, "sensor/a", "2", mkInfo None None None None);
            (3%float, "sensor/a", "3", mkInfo None None None None)]).
  - apply le_S, le_n.
  - intros size. reflexivity.
Defined.

(** *** The worker *)









(** *** The rate window *)

Lemma popleft_while_length {A : Type} (p : A -> bool) (d : list A) :
  (length (popleft_while p d) <= length d)%nat.
Proof.
  induction d as [| x d IH]; simpl; [lia |].
  destruct (p x); simpl; lia.
Qed.

Definition rate_window_sound (s : MessageQueueManager) : Prop :=
  (length (rate_history s) <= rate_calculation_window s)%nat
  /\ rate_calculation_window s = 60%nat.

Lemma record_message_rate_sound now m s :
  rate_window_sound s -> rate_window_sound (record_message now m s).
Proof.
  intros (Hlen & Hw). unfold rate_window_sound.
  change (rate_calculation_window (record_message now m s))
    with (rate_calculation_window s).
  change (rate_history (record_message now m s))
    with (in_window now (rate_calculation_window s)
            (deque_append (rate_calculation_window s) (timestamp m)
               (rate_history s))).
  split; [| exact Hw].
  unfold in_window. eapply Nat.le_trans; [apply popleft_while_length |].
  apply deque_append_length. exact Hlen.
Qed.

Lemma apply_op_rate_sound s o : rate_window_sound s -> rate_window_sound (apply_op s o).
Proof.
  intros H.
  destruct o as [now t p i | now | now m | | | | | processed overflow errors];
    simpl.
  - destruct (add_message_frame undisturbed now t p i s)
      as (_ & _ & _ & H4 & H5 & _).
    unfold rate_window_sound. cbv zeta in H4, H5. rewrite H4, H5. exact H.
  - pose proof (process_one_state now s) as Hp.
    destruct (items (incoming_queue s)) as [| m rest].
    + rewrite Hp. exact H.
    + destruct Hp as (processed & errors & alive & -> & _).
      exact (record_message_rate_sound now m _ H).
  - destruct (handle_message_state now m s) as (processed & errors & ->).
    exact (record_message_rate_sound now m s H).
  - exact H.
  - destruct H as (_ & Hw). unfold rate_window_sound. simpl.
    split; [lia | exact Hw].
  - unfold start_processing. destruct (processing_thread s); exact H.
  - unfold stop_processing. destruct (processing_thread s); exact H.
  - exact H.
Qed.

(** X6. In every state reached from a fresh manager the rate window holds at
    most 60 samples. *)
Theorem rate_window_bounded (queue_size : Z) (capacity : nat) (ops : list op) :
  (length (rate_history (run ops (__init__ queue_size capacity))) <= 60)%nat.
Proof.
  assert (G : forall ops s0, rate_window_sound s0 ->
                             rate_window_sound (fold_left apply_op ops s0)).
  { clear. induction ops as [| o ops IH]; intros s0 H0; simpl; [exact H0 |].
    apply IH, apply_op_rate_sound, H0. }
  destruct (G ops (__init__ queue_size capacity)) as [H1 H2].
  - split; [simpl; lia | reflexivity].
  - unfold run. rewrite H2 in H1. exact H1.
Qed.

(** *** Clearing *)

(** X7. [clear_history] and [clear_statistics] are independent: they commute,
    clearing the statistics keeps the history and the queue, clearing the
    history keeps the counters; and what is handled afterwards is counted
    from zero, respectively recorded from an empty history. *)
Theorem clear_operations_independent (s : MessageQueueManager)
    (feed : list (float * MQTTMessage)) :
  clear_history (clear_statistics s) = clear_statistics (clear_history s)
  /\ message_history (clear_statistics s) = message_history s
  /\ incoming_queue (clear_statistics s) = incoming_queue s
  /\ total_messages (clear_history s) = total_messages s
  /\ topic_stats (clear_history s) = topic_stats s
  /\ total_messages (handle_all feed (clear_statistics s)) = Z.of_nat (length feed)
  /\ (forall t,
        dict_get t (topic_stats (handle_all feed (clear_statistics s)))
        = if published_on t feed =? 0 then None else Some (published_on t feed))
  /\ message_history (handle_all feed (clear_history s))
     = skipn (length feed - max_history s) (map snd feed).
Proof.
  split; [reflexivity |]. split; [reflexivity |]. split; [reflexivity |].
  split; [reflexivity |]. split; [reflexivity |].
  destruct (handle_all_counts_from feed (clear_statistics s)) as [Ht Hc].
  split; [rewrite Ht; simpl; lia |]. split.
  - intros t. rewrite Hc. reflexivity.
  - destruct (handle_all_history feed (clear_history s) []) as [Hh _];
      [reflexivity |].
    rewrite Hh. simpl. unfold lastn. rewrite length_map. reflexivity.
Qed.

(** *** Reading the history *)

(** X8. [get_recent_messages(count)] for a count from 1 to the length of the
    history returns exactly the last [count] messages, oldest first; for a
    negative count [-k] it returns the history without its first [k]
    messages (nothing when [k] is the length or more). *)
Theorem get_recent_messages_counts (s : MessageQueueManager) (count : Z) :
  let history := message_history s in
  (0 < count <= Z.of_nat (length history) ->
   get_recent_messages (Some count) s
   = skipn (length history - Z.to_nat count) history
   /\ Z.of_nat (length (get_recent_messages (Some count) s)) = count)
  /\ (count < 0 ->
      get_recent_messages (Some count) s = skipn (Z.to_nat (- count)) history).
Proof.
  intros history. subst history. unfold get_recent_messages, slice_from. split.
  - intros [Hpos Hle].
    destruct (Z.ltb_spec (- count) 0) as [_ | Hge]; [| lia].
    rewrite Z.max_l by lia.
    replace (Z.to_nat (- count + Z.of_nat (length (message_history s))))
      with (length (message_history s) - Z.to_nat count)%nat by lia.
    split; [reflexivity |]. rewrite length_skipn. lia.
  - intros Hneg.
    destruct (Z.ltb_spec (- count) 0) as [Hlt | _]; [lia |].
    destruct (Z.le_ge_cases (- count) (Z.of_nat (length (message_history s))))
      as [Hin | Hout].
    + rewrite Z.min_l by exact Hin. reflexivity.
    + rewrite Z.min_r by lia. rewrite Nat2Z.id.
      rewrite skipn_all. symmetry. apply skipn_all2. lia.
Qed.

Lemma get_recent_messages_counts_witness :
  get_recent_messages (Some (-1))
    (handle_all [(1%float, sample_message 1); (2%float, sample_message 2)]
       (__init__ 10000 1000))
  = [sample_message 2].
Proof.
  apply (proj2 (get_recent_messages_counts
                  (handle_all
                     [(1%float, sample_message 1); (2%float, sample_message 2)]
                     (__init__ 10000 1000)) (-1))).
  reflexivity.
Defined.

(** *** The worker thread *)


(** No observer is registered that raises. *)
Definition observers_return (s : MessageQueueManager) : Prop :=
  (forall m, hook_returns (on_message_processed s) m)
  /\ (forall size, hook_returns (on_queue_full s) size)
  /\ (forall msg, hook_returns (on_error s) msg).









End MessageQueueMore.
